(** * PostComposer: the multi-element text canvas editor

    A shallow embedding of the state and event handlers of the React
    component [PostComposer] (frontend/src/components/PostComposer.tsx),
    and the properties of its edit-mode state machine, hit test, gesture
    handlers and submission serializer.

    Conventions of the embedding.
    - A JavaScript [number] is an exact rational ([Q]); [Math.max],
      [Math.min] and [Math.round] are their order-theoretic definitions on
      [Q] ([Math.round] rounds half up: [floor (x + 1/2)]).
    - A JavaScript string is a [string]; [trim] strips the white space
      characters of the 8-bit range from both ends.
    - [Record<string, T>] objects used as dictionaries are [gmap string T].
    - A handler runs against the values captured at the last render (the
      snapshot [s]) and queues updates; a queued functional update
      [setX (prev => f prev)] is applied to the state built by the updates
      queued before it.  Handlers that call each other therefore take both
      the snapshot [s] and the pending state [p].  Every event is handled
      after the render that follows the previous one, so the snapshot of a
      handler is the state the previous handler left.
    - Logging, animations, the keyboard and the darkening of the screen
      have no part in the properties; of these only the flags kept in the
      state are modelled. *)

From Stdlib Require Import Ascii String QArith Qround Qminmax Qabs Lqa.
From stdpp Require Import gmap strings list fin_maps pretty.

Local Open Scope string_scope.

(** ** Numbers *)

Definition Math_max (a b : Q) : Q := Qmax a b.
Definition Math_min (a b : Q) : Q := Qmin a b.
Definition Math_round (a : Q) : Z := Qfloor (a + (1 # 2))%Q.

(** [a < b], [a > b], [a >= b], [a <= b] on numbers. *)
Definition ltb (a b : Q) : bool := negb (Qle_bool b a).
Definition gtb (a b : Q) : bool := negb (Qle_bool a b).
Definition geb (a b : Q) : bool := Qle_bool b a.
Definition leb (a b : Q) : bool := Qle_bool a b.

(** ** Strings *)

(** White space of [String.prototype.trim] among the code units below 256:
    TAB, LF, VT, FF, CR, SPACE and NBSP. *)
Definition isWhiteSpace (c : ascii) : bool :=
  let n := nat_of_ascii c in
  ((9 <=? n)%nat && (n <=? 13)%nat) || (n =? 32)%nat || (n =? 160)%nat.

Fixpoint trimStart (s : string) : string :=
  match s with
  | EmptyString => EmptyString
  | String c s' => if isWhiteSpace c then trimStart s' else s
  end.

(** [trimEnd s]: an empty result of the recursive call means that only
    white space follows, so a white space character is dropped there. *)
Fixpoint trimEnd (s : string) : string :=
  match s with
  | EmptyString => EmptyString
  | String c s' =>
      match trimEnd s' with
      | EmptyString => if isWhiteSpace c then EmptyString else String c EmptyString
      | t => String c t
      end
  end.

Definition trim (s : string) : string := trimEnd (trimStart s).

(** Truthiness of a string: non-empty. *)
Definition truthy (s : string) : bool :=
  match s with EmptyString => false | _ => true end.

(** [Array.prototype.join]. *)
Fixpoint join (sep : string) (l : list string) : string :=
  match l with
  | [] => ""
  | [a] => a
  | a :: l' => a ++ sep ++ join sep l'
  end.

(** ** Text elements *)

Inductive FontFamily := arial_black | crimson_text | papyrus | impact.
Inductive BackgroundMode := off | white | inverted.

(** The fields keep their source names inside the module [El]. *)
Module El.
Record TextElement := mkTextElement {
  id : string;
  content : string;
  x : Q;
  y : Q;
  originalX : option Q;
  originalY : option Q;
  fontSize : Q;
  color : string;
  fontFamily : FontFamily;
  hasBackground : bool;
  backgroundColor : string;
  backgroundMode : BackgroundMode;
  capsLock : bool;
  scale : Q
}.
End El.
Abbreviation TextElement := El.TextElement.

(** [Partial<TextElement>]: the fields an update carries. *)
Record Partial := mkPartial {
  u_content : option string;
  u_x : option Q;
  u_y : option Q;
  u_fontSize : option Q;
  u_color : option string;
  u_fontFamily : option FontFamily;
  u_hasBackground : option bool;
  u_backgroundMode : option BackgroundMode;
  u_capsLock : option bool;
  u_scale : option Q
}.

Definition noUpdates : Partial :=
  mkPartial None None None None None None None None None None.

(** The object literals the handlers pass to [updateTextElement]. *)
Definition contentAndFontSize (c : string) (fs : Q) : Partial :=
  mkPartial (Some c) None None (Some fs) None None None None None None.
Definition contentOnly (c : string) : Partial :=
  mkPartial (Some c) None None None None None None None None None.
Definition positionOnly (px py : Q) : Partial :=
  mkPartial None (Some px) (Some py) None None None None None None None.
Definition scaleOnly (v : Q) : Partial :=
  mkPartial None None None None None None None None None (Some v).
Definition backgroundModeOnly (m : BackgroundMode) : Partial :=
  mkPartial None None None None None None None (Some m) None None.

(** [{ ...el, ...updates }] *)
Definition spread (el : TextElement) (u : Partial) : TextElement :=
  {| El.id := El.id el;
     El.content := default (El.content el) (u_content u);
     El.x := default (El.x el) (u_x u);
     El.y := default (El.y el) (u_y u);
     El.originalX := El.originalX el;
     El.originalY := El.originalY el;
     El.fontSize := default (El.fontSize el) (u_fontSize u);
     El.color := default (El.color el) (u_color u);
     El.fontFamily := default (El.fontFamily el) (u_fontFamily u);
     El.hasBackground := default (El.hasBackground el) (u_hasBackground u);
     El.backgroundColor := El.backgroundColor el;
     El.backgroundMode := default (El.backgroundMode el) (u_backgroundMode u);
     El.capsLock := default (El.capsLock el) (u_capsLock u);
     El.scale := default (El.scale el) (u_scale u) |}.

(** The element every creation path builds. *)
Definition newTextElement (newId : string) (ex ey : Q) : TextElement :=
  {| El.id := newId; El.content := ""; El.x := ex; El.y := ey;
     El.originalX := None; El.originalY := None;
     El.fontSize := 24%Q; El.color := "#FF1A1A"; El.fontFamily := arial_black;
     El.hasBackground := false; El.backgroundColor := "#FFFFFF";
     El.backgroundMode := off; El.capsLock := true; El.scale := 1%Q |}.

(** [textElements.find(el => el.id === i)] *)
Definition findById (i : string) (els : list TextElement) : option TextElement :=
  List.find (fun el => bool_decide (El.id el = i)) els.

(** In-place mutation of the first element object with id [i]
    ([const element = textElements.find(...); element.f = v]). *)
Fixpoint mutateFirst (i : string) (f : TextElement -> TextElement)
    (els : list TextElement) : list TextElement :=
  match els with
  | [] => []
  | el :: rest =>
      if bool_decide (El.id el = i) then f el :: rest
      else el :: mutateFirst i f rest
  end.

(** ** Component state *)

Record State := mkState {
  textElements : list TextElement;
  selectedTextId : string;
  isEditingText : bool;
  isPosting : bool;
  currentFontSize : Q;
  localTextContent : gmap string string;
  backgroundColor : string;
  backgroundGradient : list string;
  showControlBar : bool;
  screenDarkened : bool;
  dragStart : gmap string (Q * Q)
}.

(** The state setters.  [setTextElements] and [setLocalTextContent] take
    the functional form [prev => ...]. *)
Definition setTextElements (f : list TextElement -> list TextElement) (p : State) : State :=
  mkState (f (textElements p)) (selectedTextId p) (isEditingText p) (isPosting p)
    (currentFontSize p) (localTextContent p) (backgroundColor p)
    (backgroundGradient p) (showControlBar p) (screenDarkened p) (dragStart p).
Definition setSelectedTextId (v : string) (p : State) : State :=
  mkState (textElements p) v (isEditingText p) (isPosting p)
    (currentFontSize p) (localTextContent p) (backgroundColor p)
    (backgroundGradient p) (showControlBar p) (screenDarkened p) (dragStart p).
Definition setIsEditingText (v : bool) (p : State) : State :=
  mkState (textElements p) (selectedTextId p) v (isPosting p)
    (currentFontSize p) (localTextContent p) (backgroundColor p)
    (backgroundGradient p) (showControlBar p) (screenDarkened p) (dragStart p).
Definition setIsPosting (v : bool) (p : State) : State :=
  mkState (textElements p) (selectedTextId p) (isEditingText p) v
    (currentFontSize p) (localTextContent p) (backgroundColor p)
    (backgroundGradient p) (showControlBar p) (screenDarkened p) (dragStart p).
Definition setCurrentFontSize (v : Q) (p : State) : State :=
  mkState (textElements p) (selectedTextId p) (isEditingText p) (isPosting p)
    v (localTextContent p) (backgroundColor p)
    (backgroundGradient p) (showControlBar p) (screenDarkened p) (dragStart p).
Definition setLocalTextContent (f : gmap string string -> gmap string string) (p : State) : State :=
  mkState (textElements p) (selectedTextId p) (isEditingText p) (isPosting p)
    (currentFontSize p) (f (localTextContent p)) (backgroundColor p)
    (backgroundGradient p) (showControlBar p) (screenDarkened p) (dragStart p).
Definition setShowControlBar (v : bool) (p : State) : State :=
  mkState (textElements p) (selectedTextId p) (isEditingText p) (isPosting p)
    (currentFontSize p) (localTextContent p) (backgroundColor p)
    (backgroundGradient p) v (screenDarkened p) (dragStart p).
Definition setScreenDarkened (v : bool) (p : State) : State :=
  mkState (textElements p) (selectedTextId p) (isEditingText p) (isPosting p)
    (currentFontSize p) (localTextContent p) (backgroundColor p)
    (backgroundGradient p) (showControlBar p) v (dragStart p).
(** Writes to the ref [dragStart.current]. *)
Definition setDragStart (f : gmap string (Q * Q) -> gmap string (Q * Q)) (p : State) : State :=
  mkState (textElements p) (selectedTextId p) (isEditingText p) (isPosting p)
    (currentFontSize p) (localTextContent p) (backgroundColor p)
    (backgroundGradient p) (showControlBar p) (screenDarkened p) (f (dragStart p)).

(** ** Events *)

(** A press on the canvas: [event.nativeEvent] and the reading of
    [Date.now().toString()] the handler takes if it creates an element. *)
Record TapEvent := mkTap {
  locationX : Q;
  locationY : Q;
  now : string
}.

Inductive GestureState := UNDETERMINED | FAILED | BEGAN | CANCELLED | ACTIVE | END.

Global Instance GestureState_eq_dec : EqDecision GestureState.
Proof. solve_decision. Defined.

(** [event.nativeEvent] of a pan or pinch gesture handler. *)
Module Ev.
Record GestureEvent := mkGesture {
  state : GestureState;
  translationX : Q;
  translationY : Q;
  scale : Q
}.
End Ev.
Abbreviation GestureEvent := Ev.GestureEvent.

(** ** The outbound payload *)

(** One record of [text_elements]. *)
Module Out.
Record TextElement := mkOut {
  content : string;
  x : Q;
  y : Q;
  fontSize : Z;
  color : string;
  fontFamily : FontFamily;
  hasBackground : bool;
  backgroundColor : string
}.
End Out.

Record RepostGeometry := mkGeometry { geo_x : Q; geo_y : Q; geo_scale : Q }.

Record RepostPayload := mkRepostPayload {
  original_post_id : string;
  screenshot_uri : string;
  repost_geometry : RepostGeometry
}.

Record PostCreate := mkPostCreate {
  text_content : string;
  text_elements : list Out.TextElement;
  font_choice : FontFamily;
  font_size : Z;
  text_color : string;
  background_color : string;
  background_gradient : option (list string);
  has_outline : bool;
  outline_color : string;
  has_text_background : bool;
  text_background_color : option string;
  canvas_width : Z;
  canvas_height : Z;
  repost_data : option RepostPayload
}.

(** The prop [repostData]: the id of the original post and the
    screenshot uri. *)
Record RepostData := mkRepostData {
  originalPost_id : string;
  screenshotUri : string
}.

(** What [handlePost] does besides updating the state: the alert it shows
    or the request it sends. *)
Inductive Effect :=
  | Alert (title message : string)
  | ApiPost (postData : PostCreate).

Definition maxLength : nat := 500.

(** [v || d] on numbers: [0] is falsy. *)
Definition orNumber (v d : Q) : Q := if Qeq_bool v 0 then d else v.

Section Composer.

(** [Dimensions.get('window')] and the props of the component. *)
Variables screenWidth screenHeight : Q.
Variable repostData : option RepostData.

Definition initialState : State :=
  {| textElements := [newTextElement "1" (screenWidth / 2) (screenHeight * (3 # 10))];
     selectedTextId := "1";
     isEditingText := false;
     isPosting := false;
     currentFontSize := 24%Q;
     localTextContent := ∅;
     backgroundColor := "#F8F8FF";
     backgroundGradient := [];
     showControlBar := false;
     screenDarkened := false;
     dragStart := ∅ |}.

Definition getCurrentTextElement (s : State) : option TextElement :=
  match findById (selectedTextId s) (textElements s) with
  | Some el => Some el
  | None => head (textElements s)
  end.

Definition updateTextElement (i : string) (updates : Partial) (p : State) : State :=
  setTextElements
    (map (fun el => if bool_decide (El.id el = i) then spread el updates else el)) p.

Definition handleTextInputChange (i : string) (text : string) (p : State) : State :=
  setLocalTextContent (fun prev => <[i := text]> prev) p.

Definition getDisplayText (s : State) (element : TextElement) : string :=
  match localTextContent s !! El.id element with
  | Some t => t
  | None => El.content element
  end.

(** The hit box test of [findElementAtPosition]. *)
Definition hitTest (px py : Q) (element : TextElement) : bool :=
  let elementX := (El.x element - 100)%Q in
  let elementY := (El.y element - 25)%Q in
  let isFirstElement := bool_decide (El.id element = "1") in
  let elementWidth : Q := (if isFirstElement then 300 else 200)%Q in
  let elementHeight : Q := (if isFirstElement then 80 else 50)%Q in
  geb px elementX && leb px (elementX + elementWidth)
  && geb py elementY && leb py (elementY + elementHeight).

Definition findElementAtPosition (s : State) (px py : Q) : option TextElement :=
  List.find (hitTest px py) (textElements s).

Definition deleteTextElement (i : string) (s : State) : State :=
  if (1 <? length (textElements s))%nat then
    let p := setTextElements (List.filter (fun el => negb (bool_decide (El.id el = i)))) s in
    if bool_decide (selectedTextId s = i) then
      setSelectedTextId
        (match List.find (fun el => negb (bool_decide (El.id el = i))) (textElements s) with
         | Some el => El.id el
         | None => ""
         end) p
    else p
  else s.

(** [element.originalX = element.x; ...; if (isOffScreen) { element.x = ...}] *)
Definition moveIntoView (element : TextElement) : TextElement :=
  let margin : Q := 100%Q in
  let isOffScreen :=
    ltb (El.x element) margin || gtb (El.x element) (screenWidth - margin)
    || ltb (El.y element) margin || gtb (El.y element) (screenHeight - margin) in
  {| El.id := El.id element;
     El.content := El.content element;
     El.x := if isOffScreen then (screenWidth * (1 # 2))%Q else El.x element;
     El.y := if isOffScreen then (screenHeight * (3 # 10))%Q else El.y element;
     El.originalX := Some (El.x element);
     El.originalY := Some (El.y element);
     El.fontSize := El.fontSize element;
     El.color := El.color element;
     El.fontFamily := El.fontFamily element;
     El.hasBackground := El.hasBackground element;
     El.backgroundColor := El.backgroundColor element;
     El.backgroundMode := El.backgroundMode element;
     El.capsLock := El.capsLock element;
     El.scale := El.scale element |}.

(** The element is looked up in the list captured at render ([s]) and its
    object is mutated in place; the pending list [p] holds the same
    objects (every caller has at most appended one to it). *)
Definition moveTextIntoViewForEditing (s : State) (i : string) (p : State) : State :=
  match findById i (textElements s) with
  | Some _ => setTextElements (mutateFirst i moveIntoView) p
  | None => p
  end.

Definition startEditingText (s : State) (i : string) (p : State) : State :=
  let p := setSelectedTextId i p in
  let p := setIsEditingText true p in
  let p := setScreenDarkened true p in
  let p := setShowControlBar true p in
  let p := moveTextIntoViewForEditing s i p in
  match findById i (textElements s) with
  | Some element =>
      let p := setLocalTextContent (fun prev => <[i := El.content element]> prev) p in
      setCurrentFontSize (El.fontSize element) p
  | None => p
  end.

(** [Object.entries(localTextContent).forEach(...)] runs over the entries
    of the captured buffer. *)
Definition stopEditingText (s : State) (p : State) : State :=
  let p :=
    foldl (fun acc '(i, c) =>
             updateTextElement i (contentAndFontSize c (currentFontSize s)) acc)
          p (map_to_list (localTextContent s)) in
  let p := setIsEditingText false p in
  let p := setScreenDarkened false p in
  let p := setShowControlBar false p in
  setLocalTextContent (fun _ => ∅) p.

(** The branch of [handleCanvasTap] taken while editing, up to the call of
    [stopEditingText]: the blank element is filtered out, the selection
    reset and the entry of the element removed from the buffer. *)
Definition removeIfBlank (s : State) : State :=
  match getCurrentTextElement s with
  | Some currentElement =>
      let currentContent :=
        match localTextContent s !! El.id currentElement with
        | Some t => t
        | None => El.content currentElement
        end in
      if truthy (trim currentContent) then s
      else
        let p := setTextElements
                   (List.filter (fun el => negb (bool_decide (El.id el = El.id currentElement)))) s in
        let p := setSelectedTextId "" p in
        setLocalTextContent (fun prev => delete (El.id currentElement) prev) p
  | None => s
  end.

(** While editing, a tap leaves the editing state; otherwise it starts
    the editing of the element it hits, or of a new element created where
    it fell.  The list searched by [findElementAtPosition] and by
    [startEditingText] is the one captured at render, also after an
    element has been queued for appending. *)
Definition handleCanvasTap (event : TapEvent) (s : State) : State :=
  if isEditingText s then
    stopEditingText s (removeIfBlank s)
  else
    match findElementAtPosition s (locationX event) (locationY event) with
    | Some tappedElement =>
        let p := setSelectedTextId (El.id tappedElement) s in
        startEditingText s (El.id tappedElement) p
    | None =>
        let newId := now event in
        let newElement := newTextElement newId (locationX event) (locationY event) in
        let p := setTextElements (fun prev => (prev ++ [newElement])%list) s in
        let p := setSelectedTextId newId p in
        startEditingText s newId p
    end.

(** The "Text" button; [newId] is the reading of [Date.now().toString()]. *)
Definition createNewTextElement (newId : string) (s : State) : State :=
  let newElement := newTextElement newId (screenWidth / 2) (screenHeight * (3 # 10)) in
  let p := setTextElements (fun prev => (prev ++ [newElement])%list) s in
  let p := setSelectedTextId newId p in
  startEditingText s newId p.

(** The background control of the bottom bar. *)
Definition cycleBackgroundMode (s : State) : State :=
  match getCurrentTextElement s with
  | Some current =>
      let nextMode :=
        match El.backgroundMode current with
        | off => white
        | white => inverted
        | inverted => off
        end in
      updateTextElement (El.id current) (backgroundModeOnly nextMode) s
  | None => s
  end.

(** The handle of the font size slider. *)
Definition handleSliderGesture (event : GestureEvent) (s : State) : State :=
  let sliderHeight : Q := 200%Q in
  let minFontSize : Q := 8%Q in
  let maxFontSize : Q := 72%Q in
  let progress := Math_max 0 (Math_min 1 (1 - Ev.translationY event / sliderHeight)) in
  setCurrentFontSize (minFontSize + progress * (maxFontSize - minFontSize)) s.

(** *** Gestures *)

Definition handlePanStateChange (event : GestureEvent) (elementId : string) (s : State) : State :=
  let s :=
    if bool_decide (Ev.state event = BEGAN) then
      match findById elementId (textElements s) with
      | Some el => setDragStart (fun d => <[elementId := (El.x el, El.y el)]> d) s
      | None => s
      end
    else s in
  if bool_decide (Ev.state event = END) || bool_decide (Ev.state event = CANCELLED)
     || bool_decide (Ev.state event = FAILED)
  then setDragStart (fun d => delete elementId d) s
  else s.

Definition handlePanGesture (event : GestureEvent) (elementId : string) (s : State) : State :=
  if negb (bool_decide (Ev.state event = ACTIVE)) || isEditingText s then s
  else
    match dragStart s !! elementId with
    | None => s
    | Some start =>
        let newX := (start.1 + Ev.translationX event)%Q in
        let newY := (start.2 + Ev.translationY event)%Q in
        updateTextElement elementId (positionOnly newX newY) s
    end.

Definition handlePinchGesture (event : GestureEvent) (elementId : string) (s : State) : State :=
  if bool_decide (Ev.state event = ACTIVE) then
    match findById elementId (textElements s) with
    | Some element =>
        if negb (isEditingText s) then
          let newScale :=
            Math_max (3 # 10) (Math_min 5 (El.scale element * Ev.scale event)) in
          updateTextElement elementId (scaleOnly newScale) s
        else s
    | None => s
    end
  else s.

(** *** Submission *)

(** [currentElements]: the elements with the buffered text in place. *)
Definition currentElements (s : State) : list TextElement :=
  map (fun el => spread el (contentOnly (getDisplayText s el))) (textElements s).

Definition allText (s : State) : string :=
  join " " (map El.content
              (List.filter (fun el => truthy (trim (El.content el))) (currentElements s))).

Definition exportElement (el : TextElement) : Out.TextElement :=
  {| Out.content := El.content el;
     Out.x := El.x el;
     Out.y := El.y el;
     Out.fontSize := Math_round (El.fontSize el * El.scale el);
     Out.color := El.color el;
     Out.fontFamily := El.fontFamily el;
     Out.hasBackground := El.hasBackground el;
     Out.backgroundColor := El.backgroundColor el |}.

Definition postData (s : State) : PostCreate :=
  let els := currentElements s in
  let first := head els in
  {| text_content := allText s;
     text_elements := map exportElement els;
     font_choice := from_option El.fontFamily arial_black first;
     font_size :=
       Math_round (orNumber (from_option El.fontSize 0 first) 24
                   * orNumber (from_option El.scale 0 first) 1)%Q;
     text_color :=
       (let c := from_option El.color "" first in if truthy c then c else "#FF1A1A");
     background_color := backgroundColor s;
     background_gradient :=
       (if (0 <? length (backgroundGradient s))%nat then Some (backgroundGradient s) else None);
     has_outline := false;
     outline_color := "#000000";
     has_text_background := from_option El.hasBackground false first;
     text_background_color :=
       (if from_option El.hasBackground false first
        then El.backgroundColor <$> first else None);
     canvas_width := Math_round screenWidth;
     canvas_height := Math_round screenHeight;
     repost_data :=
       (fun r => mkRepostPayload (originalPost_id r) (screenshotUri r) (mkGeometry 0%Q 0%Q 1%Q))
         <$> repostData |}.

(** [handlePost] up to the point where it awaits the answer of the
    backend: the state it leaves and the effects it has performed. *)
Definition handlePost (s : State) : State * list Effect :=
  let p :=
    foldl (fun acc '(i, c) =>
             updateTextElement i (contentOnly c) acc)
          s (map_to_list (localTextContent s)) in
  if negb (truthy (trim (allText s))) then
    (p, [Alert "Error" "Please add some text before posting"])
  else if (maxLength <? String.length (allText s))%nat then
    (p, [Alert "Error" "Text must be under 500 characters"])
  else
    (setIsPosting true p, [ApiPost (postData s)]).

End Composer.

(** ** Vocabulary of the properties *)

(** What the updates queued for the entries of a buffer [m] do to one
    element, [U c] being the update the entry with text [c] carries. *)
Definition commitWith (U : string -> Partial) (m : gmap string string)
    (el : TextElement) : TextElement :=
  match m !! El.id el with
  | Some c => spread el (U c)
  | None => el
  end.

(** A text that is empty after trimming. *)
Definition blank (t : string) : bool := negb (truthy (trim t)).

(** A text made of white space only. *)
Fixpoint allWhite (t : string) : bool :=
  match t with
  | EmptyString => true
  | String c t' => isWhiteSpace c && allWhite t'
  end.

(** The bounds of [scale]. *)
Definition scaleInRange (q : Q) : Prop := (3 # 10 <= q)%Q /\ (q <= 5)%Q.

(** The frames of a pinch, and of a pan, delivered in order to the
    handlers attached to the element [elementId]. *)
Definition pinchFrames (evs : list GestureEvent) (elementId : string) (s : State) : State :=
  foldl (fun acc ev => handlePinchGesture ev elementId acc) s evs.

Definition panFrames (evs : list GestureEvent) (elementId : string) (s : State) : State :=
  foldl (fun acc ev => handlePanGesture ev elementId acc) s evs.

(** The hit box in the words of the specification: centred on the
    position, 300 by 80 for the first created element (id ["1"]), 200 by
    50 for the others. *)
Definition centeredHitTest (px py : Q) (element : TextElement) : bool :=
  let w : Q := (if bool_decide (El.id element = "1") then 300 else 200)%Q in
  let h : Q := (if bool_decide (El.id element = "1") then 80 else 50)%Q in
  geb px (El.x element - w / 2) && leb px (El.x element + w / 2)
  && geb py (El.y element - h / 2) && leb py (El.y element + h / 2).

(** The aggregate text in the words of the specification: the trimmed
    contents that are not empty, joined by single spaces. *)
Definition trimmedAggregate (els : list TextElement) : string :=
  join " " (List.filter truthy (map (fun el => trim (El.content el)) els)).

(** A string of [n] spaces. *)
Fixpoint spaces (n : nat) : string :=
  match n with
  | O => ""
  | S n' => String " " (spaces n')
  end.

(** *** The user interface as a transition system

    One constructor per control of the rendered component, guarded by the
    condition under which the control is rendered or enabled. *)
Inductive step (screenWidth screenHeight : Q) : State -> State -> Prop :=
  | step_canvas_tap event s :
      step screenWidth screenHeight s
        (handleCanvasTap screenWidth screenHeight event s)
  | step_press el s :
      el ∈ textElements s ->
      ~ (isEditingText s = true /\ selectedTextId s = El.id el) ->
      step screenWidth screenHeight s
        (startEditingText screenWidth screenHeight s (El.id el) s)
  | step_long_press el s :
      el ∈ textElements s ->
      ~ (isEditingText s = true /\ selectedTextId s = El.id el) ->
      step screenWidth screenHeight s (deleteTextElement (El.id el) s)
  | step_type el text s :
      el ∈ textElements s ->
      isEditingText s = true -> selectedTextId s = El.id el ->
      step screenWidth screenHeight s (handleTextInputChange (El.id el) text s)
  | step_text_button newId s :
      step screenWidth screenHeight s
        (createNewTextElement screenWidth screenHeight newId s)
  | step_background_control s :
      showControlBar s = true ->
      step screenWidth screenHeight s (cycleBackgroundMode s)
  | step_slider event s :
      isEditingText s = true ->
      step screenWidth screenHeight s (handleSliderGesture event s)
  | step_pan_state event el s :
      el ∈ textElements s -> isEditingText s = false ->
      step screenWidth screenHeight s (handlePanStateChange event (El.id el) s)
  | step_pan event el s :
      el ∈ textElements s -> isEditingText s = false ->
      step screenWidth screenHeight s (handlePanGesture event (El.id el) s)
  | step_pinch event el s :
      el ∈ textElements s -> isEditingText s = false ->
      step screenWidth screenHeight s (handlePinchGesture event (El.id el) s).

Definition reachable (screenWidth screenHeight : Q) (s : State) : Prop :=
  rtc (step screenWidth screenHeight) (initialState screenWidth screenHeight) s.

(** ** Scenarios on a window of 390 by 844 units *)

Definition phone : State := initialState 390 844.

(** A tap on the empty canvas at (50, 50) creates an element there. *)
Definition tapNearCorner : TapEvent := mkTap 50 50 "1700000000000".
Definition createdNearCorner : State := handleCanvasTap 390 844 tapNearCorner phone.
Definition typedHi : State :=
  handleTextInputChange "1700000000000" "hi" createdNearCorner.

(** A later tap, anywhere on the canvas. *)
Definition tapAway : TapEvent := mkTap 0 0 "1700000000001".
Definition committedHi : State := handleCanvasTap 390 844 tapAway typedHi.
Definition defaultElement : TextElement :=
  newTextElement "1" (390 / 2) (844 * (3 # 10)).

(** A press on the default element, then some typing on it. *)
Definition editingDefault : State := startEditingText 390 844 phone "1" phone.
Definition typedOnDefault : State := handleTextInputChange "1" "hi" editingDefault.

(** ... then the background control once, and a tap to leave. *)
Definition whiteChipEditing : State := cycleBackgroundMode typedOnDefault.
Definition whiteChip : State := handleCanvasTap 390 844 tapAway whiteChipEditing.

(** A draft with trailing blanks: one letter and 500 spaces. *)
Definition paddedDraft : State :=
  handleCanvasTap 390 844 tapAway
    (handleTextInputChange "1" ("a" ++ spaces 500) editingDefault).

(** A pinch frame that magnifies a hundredfold, frames of a drag. *)
Definition hugePinch : GestureEvent := Ev.mkGesture ACTIVE 0 0 100.
Definition panBegan : GestureEvent := Ev.mkGesture BEGAN 0 0 1.
Definition panBy (tx ty : Q) : GestureEvent := Ev.mkGesture ACTIVE tx ty 1.
Definition panEnd : GestureEvent := Ev.mkGesture END 0 0 1.

(** ** The other controls of the composer *)

Definition setBackgroundColor (v : string) (p : State) : State :=
  mkState (textElements p) (selectedTextId p) (isEditingText p) (isPosting p)
    (currentFontSize p) (localTextContent p) v
    (backgroundGradient p) (showControlBar p) (screenDarkened p) (dragStart p).

Definition backgroundOptions : list string :=
  ["#F8F8FF"; "#1B1B1B"; "#FF1A1A"; "#4A90E2"; "#7B68EE"; "#FF6B6B"; "#4ECDC4"].

(** [Colors.postColors], the swatches of the colour selection. *)
Definition postColors : list string :=
  ["#F8F8FF"; "#FF1A1A"; "#FAEBD7"; "#000000"; "#0000EE"; "#FF1493"; "#00CED1";
   "#9932CC"; "#FF6347"; "#32CD32"; "#FFD700"; "#DC143C"; "#4169E1"; "#8B008B";
   "#2F4F4F"].

(** The background button of the top menu.  [currentBgIndex] is a state
    variable of its own and is threaded beside the rest of the state; the
    read [backgroundOptions[nextIndex]] is total here, an index outside
    the list (which the modulus excludes) reading as the empty string. *)
Definition cycleBackgroundColor (currentBgIndex : nat) (p : State) : nat * State :=
  let nextIndex := ((currentBgIndex + 1) mod length backgroundOptions)%nat in
  (nextIndex, setBackgroundColor (nth nextIndex backgroundOptions "") p).

Definition capsLockOnly (b : bool) : Partial :=
  mkPartial None None None None None None None None (Some b) None.
Definition fontFamilyOnly (f : FontFamily) : Partial :=
  mkPartial None None None None None (Some f) None None None None.
Definition colorOnly (c : string) : Partial :=
  mkPartial None None None None (Some c) None None None None None.

(** The caps lock control of the bottom bar. *)
Definition toggleCapsLock (s : State) : State :=
  match getCurrentTextElement s with
  | Some current =>
      updateTextElement (El.id current) (capsLockOnly (negb (El.capsLock current))) s
  | None => s
  end.

(** The font and colour selections of the floating menu, which is
    rendered for the current element. *)
Definition selectFont (key : FontFamily) (s : State) : State :=
  match getCurrentTextElement s with
  | Some element => updateTextElement (El.id element) (fontFamilyOnly key) s
  | None => s
  end.

Definition selectColor (c : string) (s : State) : State :=
  match getCurrentTextElement s with
  | Some element => updateTextElement (El.id element) (colorOnly c) s
  | None => s
  end.

(** The [catch] branch of [handlePost], when the backend has refused. *)
Definition handlePostFailed (p : State) : State := setIsPosting false p.

(** *** The whole interface as a transition system

    The transitions of [step], and those of the controls [step] leaves
    out: caps lock, font, colour, canvas background and the Post button
    with its failure.  The floating menu is taken to be open whenever the
    control bar is.  The toggles of [renderGlowSelection] and
    [renderBackgroundSelection] are no transitions: nothing renders
    them. *)
Inductive uiStep (screenWidth screenHeight : Q) (rd : option RepostData) :
    State -> State -> Prop :=
  | ui_step s s' :
      step screenWidth screenHeight s s' -> uiStep screenWidth screenHeight rd s s'
  | ui_caps_lock s :
      showControlBar s = true ->
      uiStep screenWidth screenHeight rd s (toggleCapsLock s)
  | ui_font key s :
      showControlBar s = true ->
      uiStep screenWidth screenHeight rd s (selectFont key s)
  | ui_color c s :
      showControlBar s = true -> c ∈ postColors ->
      uiStep screenWidth screenHeight rd s (selectColor c s)
  | ui_background i s :
      uiStep screenWidth screenHeight rd s (cycleBackgroundColor i s).2
  | ui_post s :
      isEditingText s = false -> isPosting s = false ->
      uiStep screenWidth screenHeight rd s
        (handlePost screenWidth screenHeight rd s).1
  | ui_post_failed s :
      isPosting s = true ->
      uiStep screenWidth screenHeight rd s (handlePostFailed s).

Definition uiReachable (screenWidth screenHeight : Q) (rd : option RepostData)
    (s : State) : Prop :=
  rtc (uiStep screenWidth screenHeight rd) (initialState screenWidth screenHeight) s.

(** The bounds of a font size. *)
Definition fontSizeInRange (q : Q) : Prop := (8 <= q)%Q /\ (q <= 72)%Q.

(** What holds of every element the interface can produce. *)
Definition elementInv (el : TextElement) : Prop :=
  scaleInRange (El.scale el) /\ fontSizeInRange (El.fontSize el)
  /\ El.hasBackground el = false /\ El.backgroundColor el = "#FFFFFF".

(** What holds of every state the interface can reach. *)
Definition composerInv (s : State) : Prop :=
  showControlBar s = isEditingText s
  /\ screenDarkened s = isEditingText s
  /\ (isEditingText s = false -> localTextContent s = ∅)
  /\ fontSizeInRange (currentFontSize s)
  /\ Forall elementInv (textElements s).

(** ** Candidate uris of the repost image *)

(** Letters compare without case in the patterns of
    [buildImageCandidates], which are made of ASCII characters. *)
Definition toLowerAscii (c : ascii) : ascii :=
  let n := nat_of_ascii c in
  if (65 <=? n)%nat && (n <=? 90)%nat then ascii_of_nat (n + 32) else c.

(** [/^p/i.test(s)] for a literal [p]. *)
Fixpoint startsWithIgnoreCase (p s : string) : bool :=
  match p, s with
  | EmptyString, _ => true
  | String _ _, EmptyString => false
  | String a p', String b s' =>
      bool_decide (toLowerAscii a = toLowerAscii b) && startsWithIgnoreCase p' s'
  end.

Fixpoint dropChars (n : nat) (s : string) : string :=
  match n, s with
  | O, _ => s
  | S _, EmptyString => EmptyString
  | S n', String _ s' => dropChars n' s'
  end.

(** A text that does not begin with white space. *)
Definition startsClean (t : string) : bool :=
  match t with
  | EmptyString => true
  | String c _ => negb (isWhiteSpace c)
  end.

(** The four tests on the scheme ([https?] reads as two prefixes). *)
Definition hasScheme (u : string) : bool :=
  startsWithIgnoreCase "file://" u
  || startsWithIgnoreCase "content://" u
  || startsWithIgnoreCase "http://" u || startsWithIgnoreCase "https://" u
  || startsWithIgnoreCase "data:image/" u.

(** [isIOS] is [Platform.OS === 'ios']; [raw] is [None] for
    [undefined]. *)
Definition buildImageCandidates (isIOS : bool) (raw : option string) : list string :=
  match raw with
  | None => []
  | Some r =>
      if negb (truthy r) then []
      else
        let u := trim r in
        let u := if negb (hasScheme u) then "file://" ++ u else u in
        if isIOS then
          let noPrivate :=
            if startsWithIgnoreCase "file:///private/" u
            then "file:///" ++ dropChars 16 u else u in
          if bool_decide (noPrivate <> u) then [u; noPrivate] else [u]
        else [u]
  end.

(** ** The post card *)

(** The fields of a [Post] that the card and the feed read. *)
Module Post.
Record Post := mkPost {
  id : string;
  handle : string;
  text_content : string;
  rendered_image_url : option string
}.
End Post.
Abbreviation Post := Post.Post.

(** What [handleRepost] ends in. *)
Inductive RepostOutcome :=
  | RepostRefused (title message : string)
  | NavigateToComposer (originalPost : Post) (screenshotUri : string).

Definition handleRepost (post : Post) : RepostOutcome :=
  match Post.rendered_image_url post with
  | Some imageUri =>
      if negb (truthy imageUri)
      then RepostRefused "Error" "This post cannot be reposted (no image available)"
      else NavigateToComposer post imageUri
  | None => RepostRefused "Error" "This post cannot be reposted (no image available)"
  end.

(** The [repostData] prop the composer screen hands on from the route. *)
Definition routeRepostData (o : RepostOutcome) : option RepostData :=
  match o with
  | NavigateToComposer post uri => Some (mkRepostData (Post.id post) uri)
  | RepostRefused _ _ => None
  end.

(** [formatTimeAgo]: [now] and [date] are the readings of [getTime ()] in
    milliseconds, [date] being [None] when the string is no date (the
    reading is then [NaN], every comparison fails and the day count
    prints as [NaN]). *)
Definition formatTimeAgo (now : Z) (date : option Z) : string :=
  match date with
  | None => "NaNd"
  | Some d =>
      let diff := (now - d)%Z in
      let minutes := (diff / (1000 * 60))%Z in
      let hours := (diff / (1000 * 60 * 60))%Z in
      let days := (diff / (1000 * 60 * 60 * 24))%Z in
      if (minutes <? 1)%Z then "now"
      else if (minutes <? 60)%Z then pretty minutes ++ "m"
      else if (hours <? 24)%Z then pretty hours ++ "h"
      else pretty days ++ "d"
  end.

(** ** The feed *)

Module Feed.

Record State := mkState {
  posts : list Post;
  loading : bool;
  refreshing : bool;
  loadingMore : bool;
  nextUrl : option string;
  error : option string
}.

(** The state a freshly mounted feed starts from. *)
Definition initial : State := mkState [] true false false None None.

(** The answer of the backend to [api.get(endpoints.getFeed)]: the page
    and the url of the next one, or the [detail] of the failure if the
    response carries one. *)
Inductive Response :=
  | Page (results : list Post) (next : option string)
  | Failure (detail : option string).

Inductive Effect :=
  | FetchFeed (isRefresh : bool) (cursor : option string)
  | MuteUser (handle : string)
  | ToastError (text2 : string)
  | ToastSuccess (text1 text2 : string).

(** A string option that holds a non-empty string, as [if (v)] tests. *)
Definition present (v : option string) : bool :=
  match v with Some t => truthy t | None => false end.

(** What [fetchFeed] hands to [setPosts]: the page itself on a refresh
    and on the first load, the old posts followed by the posts of the
    page whose id is new when a cursor was given. *)
Definition loadedPosts (isRefresh : bool) (cursor : option string)
    (results prev : list Post) : list Post :=
  if isRefresh then results
  else if present cursor then
    let existingIds := map Post.id prev in
    let newPosts :=
      List.filter (fun post => negb (bool_decide (Post.id post ∈ existingIds))) results in
    (prev ++ newPosts)%list
  else results.

(** [fetchFeed] from the answer on: [try], [catch] and [finally]. *)
Definition fetchFeedDone (isRefresh : bool) (cursor : option string)
    (response : Response) (s : State) : State * list Effect :=
  match response with
  | Page results next =>
      (mkState (loadedPosts isRefresh cursor results (posts s))
         false false false next None, [])
  | Failure detail =>
      let errorMessage :=
        match detail with
        | Some d => if truthy d then d else "Failed to load feed"
        | None => "Failed to load feed"
        end in
      (mkState (posts s) false false false (nextUrl s) (Some errorMessage),
       [ToastError errorMessage])
  end.

Definition handleRefresh (s : State) : State * list Effect :=
  (mkState (posts s) (loading s) true (loadingMore s) (nextUrl s) (error s),
   [FetchFeed true None]).

(** [searchCursor] stands for
    [url => new URL(url).searchParams.get('cursor')]. *)
Definition handleLoadMore (searchCursor : string -> option string) (s : State)
    : State * list Effect :=
  if present (nextUrl s) && negb (loadingMore s) then
    let s' := mkState (posts s) (loading s) (refreshing s) true (nextUrl s) (error s) in
    let cursor := searchCursor (default "" (nextUrl s)) in
    if present cursor then (s', [FetchFeed false cursor]) else (s', [])
  else (s, []).

(** The effect that shows a newly created post. *)
Definition addNewPost (newPost : Post) (prev : list Post) : list Post :=
  match List.find (fun p => bool_decide (Post.id p = Post.id newPost)) prev with
  | Some _ => prev
  | None => newPost :: prev
  end.

(** The mute action of [handlePostAction]: the post it finds in the
    posts captured at render and the request it sends for it, and what
    it does to the state of the moment when the backend has accepted the
    request. *)
Definition muteTarget (postId : string) (s : State) : option Post :=
  List.find (fun p => bool_decide (Post.id p = postId)) (posts s).

Definition muteRequest (postId : string) (s : State) : list Effect :=
  match muteTarget postId s with
  | Some post => [MuteUser (Post.handle post)]
  | None => []
  end.

Definition muteDone (post : Post) (s : State) : State * list Effect :=
  (mkState
     (List.filter (fun p => negb (bool_decide (Post.handle p = Post.handle post)))
        (posts s))
     (loading s) (refreshing s) (loadingMore s) (nextUrl s) (error s),
   [ToastSuccess "Muted"
      ("You won't see posts from @" ++ Post.handle post ++ " anymore")]).

End Feed.

(** ** The WebSocket service *)

Module WS.

Inductive MessageType :=
  | new_post | post_updated | post_removed | user_banned
  | connection_established | pong
  | other (type : string).

(** A message: its type and the rest of it. *)
Record Message := mkMessage { type : MessageType; body : string }.

(** Handlers are compared by identity: a handler is a number. *)
Abbreviation Handler := nat.

Record Service := mkService {
  ws : bool;
  isConnected : bool;
  reconnectAttempts : nat;
  eventHandlers : gmap string (list Handler)
}.

(** What a callback or a method does besides changing the service.  A
    [TypeError] is thrown by a call of a method that the receiver does not
    have; it is the last effect of the call that throws. *)
Inductive Effect :=
  | Call (handler : Handler) (message : Message)
  | SetTimeoutConnect (delay : nat)
  | SocketSend (message : string)
  | SocketClose
  | ThrowTypeError.

Definition threw (out : list Effect) : bool :=
  existsb (fun e => match e with ThrowTypeError => true | _ => false end) out.

Definition maxReconnectAttempts : nat := 5.
Definition reconnectDelay : nat := 1000.

Definition initial : Service := mkService false false 0 ∅.

(** [eventHandlers] is an object literal, read by [this.eventHandlers[event]]:
    the map holds its own properties, and under the names of the members
    of [Object.prototype] the read of an object without such a property
    of its own gives the inherited member, which is truthy and is no
    array. *)
Definition inheritedNames : list string :=
  ["constructor"; "hasOwnProperty"; "isPrototypeOf"; "propertyIsEnumerable";
   "toLocaleString"; "toString"; "valueOf"; "__proto__";
   "__defineGetter__"; "__defineSetter__"; "__lookupGetter__"; "__lookupSetter__"].

Definition inherited (event : string) : bool :=
  bool_decide (event ∈ inheritedNames).

Inductive Slot :=
  | Handlers (hs : list Handler)
  | Inherited
  | Undefined.

Definition slot (event : string) (sv : Service) : Slot :=
  match eventHandlers sv !! event with
  | Some hs => Handlers hs
  | None => if inherited event then Inherited else Undefined
  end.

(** [on]: an inherited member is truthy, so no array is put in its place,
    and it has no [push]. *)
Definition on (event : string) (handler : Handler) (sv : Service) : Service * list Effect :=
  let push handlers :=
    mkService (ws sv) (isConnected sv) (reconnectAttempts sv)
      (<[event := (handlers ++ [handler])%list]> (eventHandlers sv)) in
  match slot event sv with
  | Undefined => (push [], [])
  | Handlers hs => (push hs, [])
  | Inherited => (sv, [ThrowTypeError])
  end.

(** [off]: the inherited member has no [filter]; the throw comes before
    the assignment. *)
Definition off (event : string) (handler : Handler) (sv : Service) : Service * list Effect :=
  match slot event sv with
  | Handlers hs =>
      (mkService (ws sv) (isConnected sv) (reconnectAttempts sv)
         (<[event := List.filter (fun h => negb (bool_decide (h = handler))) hs]>
            (eventHandlers sv)),
       [])
  | Inherited => (sv, [ThrowTypeError])
  | Undefined => (sv, [])
  end.

(** [emit]: the inherited member has no [forEach]. *)
Definition emit (event : string) (message : Message) (sv : Service) : list Effect :=
  match slot event sv with
  | Handlers hs => map (fun h => Call h message) hs
  | Inherited => [ThrowTypeError]
  | Undefined => []
  end.

Definition handleMessage (message : Message) (sv : Service) : list Effect :=
  match type message with
  | new_post => emit "new_post" message sv
  | post_updated => emit "post_updated" message sv
  | post_removed => emit "post_removed" message sv
  | user_banned => emit "user_banned" message sv
  | connection_established => emit "connected" message sv
  | pong => emit "pong" message sv
  | other _ => []
  end.

Definition handleReconnect (sv : Service) : Service * list Effect :=
  if (reconnectAttempts sv <? maxReconnectAttempts)%nat then
    let attempts := S (reconnectAttempts sv) in
    (mkService (ws sv) (isConnected sv) attempts (eventHandlers sv),
     [SetTimeoutConnect (reconnectDelay * attempts)])
  else
    (sv, emit "max_reconnects_reached" (mkMessage connection_established "") sv).

(** The callbacks [connect] installs on the socket. *)
Definition onopen (sv : Service) : Service * list Effect :=
  let sv' := mkService (ws sv) true 0 (eventHandlers sv) in
  (sv', emit "connected" (mkMessage connection_established "") sv').

Definition onclose (sv : Service) : Service * list Effect :=
  let sv1 := mkService (ws sv) false (reconnectAttempts sv) (eventHandlers sv) in
  let out1 := emit "disconnected" (mkMessage connection_established "") sv1 in
  if threw out1 then (sv1, out1)
  else
    let '(sv2, out2) := handleReconnect sv1 in
    (sv2, (out1 ++ out2)%list).

Definition disconnect (sv : Service) : Service * list Effect :=
  (mkService false false 0 (eventHandlers sv),
   if ws sv then [SocketClose] else []).

Definition send (message : string) (sv : Service) : list Effect :=
  if ws sv && isConnected sv then [SocketSend message] else [].

(** A run of closes, each followed by the reconnection it schedules
    failing in turn.  Every close is a callback of its own. *)
Fixpoint closes (n : nat) (sv : Service) : Service * list Effect :=
  match n with
  | O => (sv, [])
  | S n' =>
      let '(sv1, out1) := onclose sv in
      let '(sv2, out2) := closes n' sv1 in
      (sv2, (out1 ++ out2)%list)
  end.

(** The delays among the effects. *)
Definition delays (out : list Effect) : list nat :=
  omap (fun e => match e with SetTimeoutConnect d => Some d | _ => None end) out.

End WS.

(** ** The header of the main screen *)

Module MainScreen.

Inductive HeaderAnimation :=
  | HideHeader   (* toValue: -100 *)
  | ShowHeader.  (* toValue: 0 *)

(** The listener of [handleScroll]: the new value of the ref
    [lastScrollY] and the animation it starts, if any. *)
Definition handleScroll (currentScrollY lastScrollY : Q) : Q * option HeaderAnimation :=
  let diff := (currentScrollY - lastScrollY)%Q in
  if gtb (Qabs diff) 3 then
    (currentScrollY,
     if gtb diff 0 && gtb currentScrollY 80 then Some HideHeader
     else if ltb diff 0 || leb currentScrollY 80 then Some ShowHeader
     else None)
  else (lastScrollY, None).

(** A run of scroll events. *)
Definition scrolls (ys : list Q) (lastScrollY : Q) : Q * list HeaderAnimation :=
  foldl (fun '(last, out) y =>
           let '(last', a) := handleScroll y last in
           (last', (out ++ from_option (fun h => [h]) [] a)%list))
        (lastScrollY, []) ys.

End MainScreen.

(** ** Updates laid over one another *)

(** [{ ...u, ...v }] on two update literals: a field of [v] wins over the
    same field of [u]. *)
Definition overlay (u v : Partial) : Partial :=
  let later {A} (a b : option A) : option A :=
    match b with Some _ => b | None => a end in
  {| u_content := later (u_content u) (u_content v);
     u_x := later (u_x u) (u_x v);
     u_y := later (u_y u) (u_y v);
     u_fontSize := later (u_fontSize u) (u_fontSize v);
     u_color := later (u_color u) (u_color v);
     u_fontFamily := later (u_fontFamily u) (u_fontFamily v);
     u_hasBackground := later (u_hasBackground u) (u_hasBackground v);
     u_backgroundMode := later (u_backgroundMode u) (u_backgroundMode v);
     u_capsLock := later (u_capsLock u) (u_capsLock v);
     u_scale := later (u_scale u) (u_scale v) |}.

(** ** Further scenarios *)

(** The element that reads "hi" once its editing has ended. *)
Definition hiElement : TextElement :=
  spread (newTextElement "1700000000000" 50 50) (contentAndFontSize "hi" 24).

Definition tapOnHi : TapEvent := mkTap 60 60 "1700000000003".

(** A slider handle dragged down by 250 units. *)
Definition sliderDown : GestureEvent := Ev.mkGesture ACTIVE 0 250 1.

(** Posts of two authors, and a feed that shows two of them. *)
Definition postA1 : Post := Post.mkPost "p1" "ann" "first" (Some "https://cdn.example/p1.png").
Definition postA2 : Post := Post.mkPost "p2" "ann" "second" None.
Definition postB1 : Post := Post.mkPost "p3" "bob" "third" (Some "").
Definition shownFeed : Feed.State :=
  Feed.mkState [postA1; postB1] false false false
    (Some "https://api.example/feed/?cursor=abc") None.

(** A stand-in for the reading of the [cursor] parameter of a url. *)
Definition cursorAbc (url : string) : option string := Some "abc".

(** A service with one handler for new posts. *)
Definition listening : WS.Service := (WS.on "new_post" 7 WS.initial).1.

(** * Properties *)

(** ** Committing a buffer *)

Lemma spread_id el u : El.id (spread el u) = El.id el.
Proof. reflexivity. Qed.

Lemma State_eta p :
  mkState (textElements p) (selectedTextId p) (isEditingText p) (isPosting p)
    (currentFontSize p) (localTextContent p) (backgroundColor p)
    (backgroundGradient p) (showControlBar p) (screenDarkened p) (dragStart p) = p.
Proof. by destruct p. Qed.

Lemma commitWith_empty U el : commitWith U ∅ el = el.
Proof. unfold commitWith. by rewrite lookup_empty. Qed.

Lemma commitWith_id U m el : El.id (commitWith U m el) = El.id el.
Proof. unfold commitWith. by destruct (m !! El.id el). Qed.

(** The updates queued for a list of entries with distinct keys amount to
    one pass over the elements. *)
Lemma foldl_updateTextElement U (l : list (string * string)) (p : State) :
  NoDup l.*1 ->
  foldl (fun acc '(i, c) => updateTextElement i (U c) acc) p l
  = setTextElements (map (commitWith U (list_to_map l))) p.
Proof.
  revert p. induction l as [|[i c] l IH]; intros p Hnd.
  - simpl. unfold setTextElements.
    rewrite (map_ext _ (fun el => el)) by apply commitWith_empty.
    rewrite map_id. symmetry. apply State_eta.
  - apply NoDup_cons in Hnd as [Hi Hnd]. simpl in Hi. simpl foldl.
    rewrite IH by done. unfold updateTextElement, setTextElements. simpl.
    f_equal. rewrite map_map. apply map_ext. intros el.
    unfold commitWith. case_bool_decide as Hid.
    + rewrite spread_id, Hid, lookup_insert_eq.
      apply not_elem_of_list_to_map_1 in Hi. by rewrite Hi.
    + by rewrite lookup_insert_ne.
Qed.

Lemma forEach_entries U (m : gmap string string) (p : State) :
  foldl (fun acc '(i, c) => updateTextElement i (U c) acc) p (map_to_list m)
  = setTextElements (map (commitWith U m)) p.
Proof.
  rewrite foldl_updateTextElement by apply NoDup_fst_map_to_list.
  by rewrite list_to_map_to_list.
Qed.

Lemma stopEditingText_textElements s p :
  textElements (stopEditingText s p)
  = map (commitWith (fun c => contentAndFontSize c (currentFontSize s))
                    (localTextContent s)) (textElements p).
Proof. unfold stopEditingText. by rewrite forEach_entries. Qed.

Lemma stopEditingText_flags s p :
  localTextContent (stopEditingText s p) = ∅
  /\ isEditingText (stopEditingText s p) = false
  /\ selectedTextId (stopEditingText s p) = selectedTextId p.
Proof. unfold stopEditingText. by rewrite forEach_entries. Qed.

Lemma committed_element U m el' c (els : list TextElement) :
  el' ∈ map (commitWith U m) els ->
  m !! El.id el' = Some c ->
  exists el0, el0 ∈ els /\ el' = spread el0 (U c).
Proof.
  intros Hin Hm. apply list_elem_of_fmap in Hin as (el0 & -> & Hin0).
  exists el0. split; [done|]. rewrite commitWith_id in Hm.
  unfold commitWith. by rewrite Hm.
Qed.

Lemma removeIfBlank_blank s e :
  getCurrentTextElement s = Some e -> blank (getDisplayText s e) = true ->
  textElements (removeIfBlank s)
  = List.filter (fun el => negb (bool_decide (El.id el = El.id e))) (textElements s)
  /\ selectedTextId (removeIfBlank s) = "".
Proof.
  intros He Hb. unfold removeIfBlank. rewrite He.
  unfold blank, getDisplayText in Hb. apply negb_true_iff in Hb.
  by rewrite Hb.
Qed.

Lemma removeIfBlank_nonblank s e :
  getCurrentTextElement s = Some e -> blank (getDisplayText s e) = false ->
  removeIfBlank s = s.
Proof.
  intros He Hb. unfold removeIfBlank. rewrite He.
  unfold blank, getDisplayText in Hb. apply negb_false_iff in Hb.
  by rewrite Hb.
Qed.

(** ** Leaving the editing state *)

(** C1. Leaving [Editing] by a tap on the canvas ([handleCanvasTap] while
    [isEditingText]) or by a dismissal ([stopEditingText] alone) writes
    every entry of the Local Edit Buffer back into the store, the text
    together with the active editing font size; when the text shown for the
    edited element is blank, the tap removes the element and resets the
    selection; afterwards the buffer is empty and the editing flag is
    down. *)
Theorem edit_exit_commits_and_clears
    (screenWidth screenHeight : Q) (event : TapEvent) (s : State) :
  isEditingText s = true ->
  let s' := handleCanvasTap screenWidth screenHeight event s in
  let dismissed := stopEditingText s s in
  let commit :=
    commitWith (fun c => contentAndFontSize c (currentFontSize s)) (localTextContent s) in
  (* the entries are written back *)
  (forall el c, el ∈ textElements s' -> localTextContent s !! El.id el = Some c ->
     El.content el = c /\ El.fontSize el = currentFontSize s)
  /\ (forall el c, el ∈ textElements dismissed -> localTextContent s !! El.id el = Some c ->
     El.content el = c /\ El.fontSize el = currentFontSize s)
  /\ textElements dismissed = map commit (textElements s)
  (* a blank draft removes the edited element *)
  /\ (forall e, getCurrentTextElement s = Some e -> blank (getDisplayText s e) = true ->
       textElements s'
       = map commit
           (List.filter (fun el => negb (bool_decide (El.id el = El.id e))) (textElements s))
       /\ (forall el, el ∈ textElements s' -> El.id el <> El.id e)
       /\ selectedTextId s' = ""
       /\ localTextContent s' !! El.id e = None)
  (* any other draft is kept *)
  /\ (forall e, getCurrentTextElement s = Some e -> blank (getDisplayText s e) = false ->
       textElements s' = map commit (textElements s)
       /\ selectedTextId s' = selectedTextId s)
  (* the buffer and the flag afterwards *)
  /\ localTextContent s' = ∅ /\ isEditingText s' = false
  /\ localTextContent dismissed = ∅ /\ isEditingText dismissed = false.
Proof.
  intros Hedit s' dismissed commit.
  assert (Hs' : s' = stopEditingText s (removeIfBlank s)).
  { subst s'. unfold handleCanvasTap. by rewrite Hedit. }
  assert (Hwrite : forall p el c,
             el ∈ textElements (stopEditingText s p) ->
             localTextContent s !! El.id el = Some c ->
             El.content el = c /\ El.fontSize el = currentFontSize s).
  { intros p el c Hin Hm. rewrite stopEditingText_textElements in Hin.
    destruct (committed_element _ _ _ _ _ Hin Hm) as (el0 & _ & ->). done. }
  destruct (stopEditingText_flags s (removeIfBlank s)) as (Hl1 & He1 & Hsel1).
  destruct (stopEditingText_flags s s) as (Hl2 & He2 & _).
  rewrite Hs'. split_and!; try done.
  - apply Hwrite.
  - apply Hwrite.
  - apply stopEditingText_textElements.
  - intros e He Hb.
    destruct (removeIfBlank_blank s e He Hb) as [Hels Hsel].
    rewrite stopEditingText_textElements, Hels, Hsel1, Hsel, Hl1.
    split_and!; try done.
    intros el Hin. apply list_elem_of_fmap in Hin as (el0 & -> & Hin0).
    apply list_elem_of_In, filter_In in Hin0 as [_ Hne].
    subst commit. rewrite commitWith_id.
    by apply negb_true_iff, bool_decide_eq_false in Hne.
  - intros e He Hb.
    rewrite stopEditingText_textElements, Hsel1.
    by rewrite (removeIfBlank_nonblank s e He Hb).
Qed.

(** ** Updates by id *)

Lemma findById_map (f : TextElement -> TextElement) i els :
  (forall el, El.id (f el) = El.id el) ->
  findById i (map f els) = f <$> findById i els.
Proof.
  intros Hf. unfold findById. induction els as [|el els IH]; [done|].
  simpl. rewrite Hf. by destruct (bool_decide (El.id el = i)).
Qed.

Lemma findById_id i els el : findById i els = Some el -> El.id el = i.
Proof.
  unfold findById. intros H. apply find_some in H as [_ H].
  by apply bool_decide_eq_true in H.
Qed.

Lemma findById_elem_of i els el : findById i els = Some el -> el ∈ els.
Proof.
  unfold findById. intros H. apply find_some in H as [H _].
  by apply list_elem_of_In.
Qed.

Lemma updateTextElement_find i u s el :
  findById i (textElements s) = Some el ->
  findById i (textElements (updateTextElement i u s)) = Some (spread el u).
Proof.
  intros Hf. unfold updateTextElement. simpl.
  rewrite findById_map.
  - rewrite Hf. simpl. apply findById_id in Hf. by rewrite bool_decide_eq_true_2.
  - intros e. by case_bool_decide.
Qed.

(** ** Pinch *)

Lemma clamp_scaleInRange q : scaleInRange (Math_max (3 # 10) (Math_min 5 q)).
Proof.
  unfold scaleInRange, Math_max, Math_min. split.
  - apply Q.le_max_l.
  - apply Q.max_lub; [discriminate | apply Q.le_min_l].
Qed.

Lemma handlePinchGesture_scaleInRange ev i s el :
  findById i (textElements s) = Some el -> scaleInRange (El.scale el) ->
  exists el', findById i (textElements (handlePinchGesture ev i s)) = Some el'
              /\ scaleInRange (El.scale el').
Proof.
  intros Hf Hr. unfold handlePinchGesture.
  case_bool_decide; [|by eauto]. rewrite Hf.
  destruct (isEditingText s); simpl; [by eauto|].
  eexists. split; [by apply updateTextElement_find|].
  apply clamp_scaleInRange.
Qed.

Lemma pinchFrames_scaleInRange evs i s el :
  findById i (textElements s) = Some el -> scaleInRange (El.scale el) ->
  exists el', findById i (textElements (pinchFrames evs i s)) = Some el'
              /\ scaleInRange (El.scale el').
Proof.
  revert s el. induction evs as [|ev evs IH]; intros s el Hf Hr; [by eauto|].
  destruct (handlePinchGesture_scaleInRange ev i s el Hf Hr) as (el1 & Hf1 & Hr1).
  exact (IH _ _ Hf1 Hr1).
Qed.

(** C2. An active pinch frame on an element that is not being edited sets
    its scale to the committed scale times the factor of the frame, clamped
    to [0.3, 5.0]; the result lies in that interval whatever the factor,
    and so does the scale after any further frames. *)
Theorem pinch_scale_clamped
    (elementId : string) (ev : GestureEvent) (s : State) (el : TextElement) :
  Ev.state ev = ACTIVE -> isEditingText s = false ->
  findById elementId (textElements s) = Some el ->
  let clamped := Math_max (3 # 10) (Math_min 5 (El.scale el * Ev.scale ev)) in
  findById elementId (textElements (handlePinchGesture ev elementId s))
  = Some (spread el (scaleOnly clamped))
  /\ El.scale (spread el (scaleOnly clamped)) = clamped
  /\ scaleInRange clamped
  /\ (forall evs, exists el',
        findById elementId (textElements (pinchFrames (ev :: evs) elementId s)) = Some el'
        /\ scaleInRange (El.scale el')).
Proof.
  intros Hact Hview Hf clamped.
  assert (Hframe : findById elementId (textElements (handlePinchGesture ev elementId s))
                   = Some (spread el (scaleOnly clamped))).
  { unfold handlePinchGesture. rewrite Hact, Hf, Hview. simpl.
    by apply updateTextElement_find. }
  split_and!; [done | done | apply clamp_scaleInRange |].
  intros evs. simpl.
  apply (pinchFrames_scaleInRange evs _ _ _ Hframe). apply clamp_scaleInRange.
Qed.

(** ** Gestures while editing *)

(** C9. While the editing flag is up, a frame delivered to the pan or to
    the pinch handler leaves the state as it is, whatever the event and the
    element; a change of the pan handler's state touches the drag snapshot
    only, never the store. *)
Theorem gestures_ignored_while_editing
    (ev : GestureEvent) (elementId : string) (s : State) :
  isEditingText s = true ->
  handlePanGesture ev elementId s = s
  /\ handlePinchGesture ev elementId s = s
  /\ textElements (handlePanStateChange ev elementId s) = textElements s
  /\ (forall el, findById elementId (textElements s) = Some el ->
        findById elementId (textElements (handlePanGesture ev elementId s)) = Some el
        /\ findById elementId (textElements (handlePinchGesture ev elementId s)) = Some el).
Proof.
  intros Hedit.
  assert (Hpan : handlePanGesture ev elementId s = s).
  { unfold handlePanGesture. by rewrite Hedit, orb_true_r. }
  assert (Hpinch : handlePinchGesture ev elementId s = s).
  { unfold handlePinchGesture. rewrite Hedit. simpl.
    case_bool_decide; [|done]. by destruct (findById _ _). }
  split_and!; [done | done | | by rewrite Hpan, Hpinch].
  unfold handlePanStateChange.
  repeat (case_bool_decide || case_match || simpl); done.
Qed.

(** ** Explicit deletion *)

Lemma filter_all {A} (f : A -> bool) (l : list A) :
  Forall (fun a => f a = true) l -> List.filter f l = l.
Proof.
  induction 1 as [|a l Ha _ IH]; [done|]. simpl. by rewrite Ha, IH.
Qed.

Lemma deleteTextElement_textElements i s :
  (1 < length (textElements s))%nat ->
  textElements (deleteTextElement i s)
  = List.filter (fun el => negb (bool_decide (El.id el = i))) (textElements s).
Proof.
  intros Hlen. unfold deleteTextElement.
  apply Nat.ltb_lt in Hlen. rewrite Hlen. by case_bool_decide.
Qed.

(** C8. The long-press deletion does nothing to a store of one element;
    on a store of more than one element it removes the elements with the
    given id and keeps the others as they are and in their order, which
    with unique ids removes exactly the targeted element. *)
Theorem delete_keeps_the_last_element (i : string) (s : State) :
  (length (textElements s) = 1%nat -> deleteTextElement i s = s)
  /\ ((1 < length (textElements s))%nat ->
      let els' := textElements (deleteTextElement i s) in
      els' = List.filter (fun el => negb (bool_decide (El.id el = i))) (textElements s)
      /\ (forall el, el ∈ els' <-> el ∈ textElements s /\ El.id el <> i)
      /\ (forall l1 e l2,
            NoDup (map El.id (textElements s)) ->
            textElements s = (l1 ++ e :: l2)%list -> El.id e = i ->
            els' = (l1 ++ l2)%list)).
Proof.
  split.
  - intros Hlen. unfold deleteTextElement. by rewrite Hlen.
  - intros Hlen els'. subst els'. rewrite deleteTextElement_textElements by done.
    split_and!; [done | |].
    + intros el. rewrite !list_elem_of_In, filter_In, negb_true_iff.
      by rewrite bool_decide_eq_false.
    + intros l1 e l2 Hnd Hels Hid. rewrite Hels in Hnd |- *.
      rewrite map_app in Hnd. simpl in Hnd.
      apply NoDup_app in Hnd as (_ & Hl1 & Hnd).
      apply NoDup_cons in Hnd as [Hl2 _].
      rewrite List.filter_app. simpl.
      rewrite bool_decide_eq_true_2 by done. simpl.
      rewrite !filter_all; [done | |].
      * apply Forall_forall. intros el Hel.
        apply negb_true_iff, bool_decide_eq_false. intros Heq.
        apply Hl2. rewrite Hid, <- Heq. by apply list_elem_of_fmap_2.
      * apply Forall_forall. intros el Hel.
        apply negb_true_iff, bool_decide_eq_false. intros Heq.
        apply (Hl1 (El.id el)); [by apply list_elem_of_fmap_2|].
        rewrite Heq, <- Hid. apply list_elem_of_here.
Qed.

(** ** Drag *)

Lemma spread_positionOnly_twice el a b px py :
  spread (spread el (positionOnly a b)) (positionOnly px py)
  = spread el (positionOnly px py).
Proof. reflexivity. Qed.

Lemma handlePanStateChange_began ev i s el :
  Ev.state ev = BEGAN -> findById i (textElements s) = Some el ->
  handlePanStateChange ev i s
  = setDragStart (fun d => <[i := (El.x el, El.y el)]> d) s.
Proof. intros Hev Hf. unfold handlePanStateChange. by rewrite Hev, Hf. Qed.

Lemma handlePanStateChange_ended ev i s :
  Ev.state ev = END \/ Ev.state ev = CANCELLED \/ Ev.state ev = FAILED ->
  handlePanStateChange ev i s = setDragStart (fun d => delete i d) s.
Proof.
  intros Hev. unfold handlePanStateChange.
  by destruct Hev as [-> | [-> | ->]].
Qed.

Lemma handlePanGesture_active ev i s start :
  Ev.state ev = ACTIVE -> isEditingText s = false ->
  dragStart s !! i = Some start ->
  handlePanGesture ev i s
  = updateTextElement i
      (positionOnly (start.1 + Ev.translationX ev) (start.2 + Ev.translationY ev)) s.
Proof.
  intros Hev Hview Hstart. unfold handlePanGesture.
  by rewrite Hev, Hview, Hstart.
Qed.

(** Active frames keep the snapshot and the editing flag, and change
    nothing but the position of the dragged element. *)
Lemma panFrames_invariant frames i s start el :
  Forall (fun ev => Ev.state ev = ACTIVE) frames ->
  isEditingText s = false -> dragStart s !! i = Some start ->
  findById i (textElements s) = Some el ->
  let s' := panFrames frames i s in
  isEditingText s' = false /\ dragStart s' !! i = Some start
  /\ exists el', findById i (textElements s') = Some el'
       /\ forall px py, spread el' (positionOnly px py) = spread el (positionOnly px py).
Proof.
  intros Hall. revert s el.
  induction Hall as [|ev frames Hev _ IH]; intros s el Hview Hstart Hf; simpl.
  - eauto.
  - rewrite (handlePanGesture_active ev i s start) by done.
    set (u := positionOnly _ _).
    destruct (IH (updateTextElement i u s) (spread el u)) as (Hv & Hs & el' & Hf' & Heq);
      [done | done | by apply updateTextElement_find |].
    split_and!; [done | done |]. exists el'. split; [done|].
    intros px py. rewrite Heq. apply spread_positionOnly_twice.
Qed.

Lemma updateTextElement_ids i u s :
  map El.id (textElements (updateTextElement i u s)) = map El.id (textElements s).
Proof.
  unfold updateTextElement. simpl. rewrite map_map. apply map_ext.
  intros el. by case_bool_decide.
Qed.

Lemma updateTextElement_others i u s other :
  El.id other <> i ->
  other ∈ textElements (updateTextElement i u s) <-> other ∈ textElements s.
Proof.
  intros Hne. unfold updateTextElement. simpl. split.
  - intros (el & Heq & Hel)%list_elem_of_fmap. case_bool_decide as Hid.
    + exfalso. apply Hne. by rewrite Heq, spread_id.
    + by subst other.
  - intros Hel. apply list_elem_of_fmap. exists other. split; [|done].
    by rewrite bool_decide_eq_false_2.
Qed.

(** Pan frames of any kind keep the ids in place and the elements of the
    other ids as they are. *)
Lemma panFrames_others frames i : forall s,
  map El.id (textElements (panFrames frames i s)) = map El.id (textElements s)
  /\ forall other, El.id other <> i ->
       other ∈ textElements (panFrames frames i s) <-> other ∈ textElements s.
Proof.
  induction frames as [|ev frames IH]; intros s; [done|].
  change (panFrames (ev :: frames) i s) with (panFrames frames i (handlePanGesture ev i s)).
  destruct (IH (handlePanGesture ev i s)) as [IHids IHothers].
  assert (Hstep : handlePanGesture ev i s = s
                  \/ exists u, handlePanGesture ev i s = updateTextElement i u s).
  { unfold handlePanGesture.
    destruct (negb _ || _); [by left|].
    destruct (dragStart s !! i); [right; eauto | by left]. }
  destruct Hstep as [Heq | [u Heq]]; rewrite Heq in IHids, IHothers |- *.
  - done.
  - split.
    + by rewrite IHids, updateTextElement_ids.
    + intros other Hne. rewrite IHothers by done.
      by apply updateTextElement_others.
Qed.

(** C6. A drag of an element while nothing is edited: the begin event
    snapshots the position; after every active frame the element has
    [x] = snapshot x + [translationX] and [y] = snapshot y + [translationY]
    of that frame (the translation since the start of the gesture, neither
    damped nor clamped), every other field being what it was; the
    elements of other ids are the same as before; the end of the gesture
    discards the snapshot and leaves the store as the last frame left
    it. *)
Theorem drag_follows_translation
    (elementId : string) (began last ended : GestureEvent)
    (frames : list GestureEvent) (s : State) (el : TextElement) :
  isEditingText s = false ->
  findById elementId (textElements s) = Some el ->
  Ev.state began = BEGAN ->
  Forall (fun ev => Ev.state ev = ACTIVE) frames -> Ev.state last = ACTIVE ->
  Ev.state ended = END \/ Ev.state ended = CANCELLED \/ Ev.state ended = FAILED ->
  let s1 := handlePanStateChange began elementId s in
  let s2 := panFrames (frames ++ [last]) elementId s1 in
  let s3 := handlePanStateChange ended elementId s2 in
  dragStart s1 !! elementId = Some (El.x el, El.y el)
  /\ textElements s1 = textElements s
  /\ findById elementId (textElements s2)
     = Some {| El.id := El.id el;
               El.content := El.content el;
               El.x := El.x el + Ev.translationX last;
               El.y := El.y el + Ev.translationY last;
               El.originalX := El.originalX el;
               El.originalY := El.originalY el;
               El.fontSize := El.fontSize el;
               El.color := El.color el;
               El.fontFamily := El.fontFamily el;
               El.hasBackground := El.hasBackground el;
               El.backgroundColor := El.backgroundColor el;
               El.backgroundMode := El.backgroundMode el;
               El.capsLock := El.capsLock el;
               El.scale := El.scale el |}
  /\ map El.id (textElements s2) = map El.id (textElements s)
  /\ (forall other, El.id other <> elementId ->
        other ∈ textElements s2 <-> other ∈ textElements s)
  /\ textElements s3 = textElements s2
  /\ dragStart s3 !! elementId = None.
Proof.
  intros Hview Hf Hbegan Hframes Hlast Hended s1 s2 s3.
  assert (Hs1 : s1 = setDragStart (fun d => <[elementId := (El.x el, El.y el)]> d) s).
  { by apply handlePanStateChange_began. }
  assert (Hsnap : dragStart s1 !! elementId = Some (El.x el, El.y el)).
  { rewrite Hs1. simpl. apply lookup_insert_eq. }
  assert (Hels1 : textElements s1 = textElements s) by by rewrite Hs1.
  assert (Hs3 : s3 = setDragStart (fun d => delete elementId d) s2).
  { by apply handlePanStateChange_ended. }
  destruct (panFrames_others (frames ++ [last]) elementId s1) as [Hids Hothers].
  split_and!; [done | done | | by rewrite <- Hels1 | | by rewrite Hs3
              | rewrite Hs3; apply lookup_delete_eq].
  2: { intros other Hne. rewrite <- Hels1. by apply Hothers. }
  subst s2. unfold panFrames. rewrite foldl_app. simpl.
  destruct (panFrames_invariant frames elementId s1 (El.x el, El.y el) el)
    as (Hv & Hs & el' & Hf' & Heq); [done | by rewrite Hs1 | done | by rewrite Hels1 |].
  fold (panFrames frames elementId s1).
  rewrite (handlePanGesture_active last elementId _ (El.x el, El.y el)) by done.
  rewrite (updateTextElement_find _ _ _ el') by done.
  simpl. by rewrite Heq.
Qed.

(** ** Hit test *)

Lemma find_first {A} (f : A -> bool) (l : list A) (a : A) :
  List.find f l = Some a <->
  exists l1 l2, l = (l1 ++ a :: l2)%list /\ f a = true
                /\ Forall (fun b => f b = false) l1.
Proof.
  split.
  - induction l as [|b l IH]; [done|]. simpl.
    destruct (f b) eqn:Hb.
    + intros [= ->]. exists [], l. by split_and!.
    + intros Hfind. destruct (IH Hfind) as (l1 & l2 & -> & Ha & Hl1).
      exists (b :: l1), l2. split_and!; [done | done | by constructor].
  - intros (l1 & l2 & -> & Ha & Hl1).
    induction Hl1 as [|b l1 Hb _ IH]; simpl; [by rewrite Ha | by rewrite Hb].
Qed.

Lemma find_none_Forall {A} (f : A -> bool) (l : list A) :
  List.find f l = None <-> Forall (fun b => f b = false) l.
Proof.
  induction l as [|b l IH]; simpl; [done|].
  destruct (f b) eqn:Hb.
  - split; [done|]. intros H. apply Forall_cons in H as [H _]. congruence.
  - rewrite IH. split; [by constructor | by intros [_ ?]%Forall_cons].
Qed.

Lemma hitTest_box px py el :
  hitTest px py el = true <->
  let w : Q := if bool_decide (El.id el = "1") then 300%Q else 200%Q in
  let h : Q := if bool_decide (El.id el = "1") then 80%Q else 50%Q in
  (El.x el - 100 <= px /\ px <= El.x el - 100 + w
   /\ El.y el - 25 <= py /\ py <= El.y el - 25 + h)%Q.
Proof.
  unfold hitTest, geb, leb. rewrite !andb_true_iff, !Qle_bool_iff.
  simpl. tauto.
Qed.

(** C4, as the code has it. The hit test returns the first element in
    creation order whose box contains the point, and nothing when no box
    does.  The box of an element starts at its position minus the fixed
    margin (100, 25); it is 300 by 80 for the element with id ["1"] (the
    default starter element) and 200 by 50 for every other element, for
    which the fixed margin is half the box: that box reaches 100 to either
    side of the position and 25 above and below it. *)
Theorem hit_test_first_in_creation_order (s : State) (px py : Q) :
  (forall el,
     findElementAtPosition s px py = Some el <->
     exists l1 l2, textElements s = (l1 ++ el :: l2)%list
                   /\ hitTest px py el = true
                   /\ Forall (fun e => hitTest px py e = false) l1)
  /\ (findElementAtPosition s px py = None <->
      Forall (fun e => hitTest px py e = false) (textElements s))
  /\ (forall el,
        hitTest px py el = true <->
        let w : Q := if bool_decide (El.id el = "1") then 300%Q else 200%Q in
        let h : Q := if bool_decide (El.id el = "1") then 80%Q else 50%Q in
        (El.x el - 100 <= px /\ px <= El.x el - 100 + w
         /\ El.y el - 25 <= py /\ py <= El.y el - 25 + h)%Q)
  /\ (forall el, El.id el <> "1" ->
        hitTest px py el = true <->
        (El.x el - 100 <= px /\ px <= El.x el + 100
         /\ El.y el - 25 <= py /\ py <= El.y el + 25)%Q).
Proof.
  split_and!.
  - intros el. apply find_first.
  - apply find_none_Forall.
  - apply hitTest_box.
  - intros el Hid. rewrite hitTest_box. simpl.
    rewrite bool_decide_eq_false_2 by done.
    split; intros (? & ? & ? & ?); split_and!; lra.
Qed.

(** Against C4 as stated. The box the code tests is not the centred box: for the default element
    of a 400 by 800 window, at (200, 240), the point (80, 240) lies in the
    centred 300 by 80 box and is not a hit. *)
Lemma hit_box_of_first_element_is_not_centered :
  let s := initialState 400 800 in
  exists el, List.find (centeredHitTest 80 240) (textElements s) = Some el
             /\ findElementAtPosition s 80 240 = None.
Proof. eexists. split; reflexivity. Qed.

(** ** Entering the editing state *)

Lemma findById_mutateFirst (f : TextElement -> TextElement) i els :
  (forall el, El.id (f el) = El.id el) ->
  findById i (mutateFirst i f els) = f <$> findById i els.
Proof.
  intros Hf. unfold findById. induction els as [|el els IH]; [done|].
  simpl. case_bool_decide as Hid; simpl.
  - by rewrite Hf, bool_decide_eq_true_2.
  - by rewrite bool_decide_eq_false_2.
Qed.

(** What [moveTextIntoViewForEditing] does to the element it finds. *)
Lemma moveIntoView_spec (screenWidth screenHeight : Q) (el : TextElement) :
  let el' := moveIntoView screenWidth screenHeight el in
  let isOffScreen :=
    (El.x el < 100 \/ screenWidth - 100 < El.x el
     \/ El.y el < 100 \/ screenHeight - 100 < El.y el)%Q in
  El.originalX el' = Some (El.x el) /\ El.originalY el' = Some (El.y el)
  /\ (isOffScreen ->
      El.x el' = (screenWidth * (1 # 2))%Q /\ El.y el' = (screenHeight * (3 # 10))%Q)
  /\ (~ isOffScreen -> El.x el' = El.x el /\ El.y el' = El.y el).
Proof.
  simpl. unfold ltb, gtb.
  assert (Hb : forall a b : Q, negb (Qle_bool a b) = true <-> (b < a)%Q).
  { intros a b. rewrite negb_true_iff, <- not_true_iff_false, Qle_bool_iff.
    split; [apply Qnot_le_lt | apply Qlt_not_le]. }
  set (c := (_ || _ || _ || _)).
  assert (Hc : c = true <->
               (El.x el < 100 \/ screenWidth - 100 < El.x el
                \/ El.y el < 100 \/ screenHeight - 100 < El.y el)%Q).
  { subst c. rewrite !orb_true_iff, !Hb. tauto. }
  split_and!; [done | done | |].
  - intros Hoff. apply Hc in Hoff. by rewrite Hoff.
  - intros Hin. destruct c; [|done]. exfalso. apply Hin, Hc. done.
Qed.

(** Entering [Editing] on an element of the rendered store (a tap that
    hits it, or a press on it). *)
Lemma startEditingText_existing (screenWidth screenHeight : Q) s p i el :
  findById i (textElements s) = Some el ->
  textElements p = textElements s ->
  let p' := startEditingText screenWidth screenHeight s i p in
  findById i (textElements p') = Some (moveIntoView screenWidth screenHeight el)
  /\ isEditingText p' = true /\ selectedTextId p' = i
  /\ localTextContent p' = <[i := El.content el]> (localTextContent p)
  /\ currentFontSize p' = El.fontSize el.
Proof.
  intros Hf Hp. unfold startEditingText, moveTextIntoViewForEditing.
  rewrite Hf. simpl. rewrite Hp, findById_mutateFirst by done.
  by rewrite Hf.
Qed.

(** Leaving [Editing] moves no element: every element of the store
    afterwards stands where an element of the same id stood before, with
    the same recorded original position. *)
Lemma edit_exit_keeps_positions (screenWidth screenHeight : Q) event s el' :
  isEditingText s = true ->
  el' ∈ textElements (handleCanvasTap screenWidth screenHeight event s) ->
  exists el, el ∈ textElements s /\ El.id el' = El.id el
             /\ El.x el' = El.x el /\ El.y el' = El.y el
             /\ El.originalX el' = El.originalX el
             /\ El.originalY el' = El.originalY el.
Proof.
  intros Hedit. unfold handleCanvasTap. rewrite Hedit.
  rewrite stopEditingText_textElements.
  intros (el & -> & Hin)%list_elem_of_fmap.
  assert (Hel : el ∈ textElements s).
  { revert Hin. unfold removeIfBlank.
    destruct (getCurrentTextElement s); [|done].
    destruct (truthy _); [done|]. simpl.
    rewrite !list_elem_of_In, filter_In. tauto. }
  exists el. unfold commitWith.
  by destruct (localTextContent s !! El.id el).
Qed.

(** Entering [Editing] on an element created by the same tap: the new
    element is appended as built, wherever the tap fell, and neither the
    buffer nor the editing font size is initialised for it. *)
Lemma handleCanvasTap_creates (screenWidth screenHeight : Q) event s :
  isEditingText s = false ->
  findElementAtPosition s (locationX event) (locationY event) = None ->
  findById (now event) (textElements s) = None ->
  let s' := handleCanvasTap screenWidth screenHeight event s in
  textElements s'
  = (textElements s
     ++ [newTextElement (now event) (locationX event) (locationY event)])%list
  /\ isEditingText s' = true /\ selectedTextId s' = now event
  /\ localTextContent s' = localTextContent s
  /\ currentFontSize s' = currentFontSize s.
Proof.
  intros Hview Hmiss Hfresh. unfold handleCanvasTap. rewrite Hview, Hmiss.
  unfold startEditingText, moveTextIntoViewForEditing. by rewrite Hfresh.
Qed.

(** C7 on the creation path. A tap on the empty canvas at (50, 50), less
    than 100 units from two edges of a 390 by 844 window, creates an
    element there and enters [Editing] on it, but the element is looked up
    in the list captured before it was appended: it is neither moved to
    the anchor nor given an original position, and the buffer gets no
    entry for it. *)
Theorem created_element_is_not_moved_into_view :
  findElementAtPosition phone 50 50 = None
  /\ isEditingText createdNearCorner = true
  /\ selectedTextId createdNearCorner = "1700000000000"
  /\ findById "1700000000000" (textElements createdNearCorner)
     = Some (newTextElement "1700000000000" 50 50)
  /\ ltb (El.x (newTextElement "1700000000000" 50 50)) 100 = true
  /\ localTextContent createdNearCorner !! "1700000000000" = None.
Proof. split_and!; reflexivity. Qed.

(** ** The exported records *)

Lemma postData_text_elements (screenWidth screenHeight : Q) rd s :
  text_elements (postData screenWidth screenHeight rd s)
  = map exportElement (currentElements s).
Proof. reflexivity. Qed.

Lemma exportElement_fontSize el :
  Out.fontSize (exportElement el) = Math_round (El.fontSize el * El.scale el).
Proof. reflexivity. Qed.

Lemma exported_size_examples :
  Math_round (24 * 2) = 48%Z /\ Math_round (10 * (3 # 10)) = 3%Z.
Proof. split; reflexivity. Qed.

Lemma whiteChip_reachable : reachable 390 844 whiteChip.
Proof.
  unfold reachable.
  apply (rtc_l _ _ editingDefault).
  { apply (step_press 390 844 (newTextElement "1" (390 / 2) (844 * (3 # 10))) phone).
    - apply list_elem_of_here.
    - by intros [? _]. }
  apply (rtc_l _ _ typedOnDefault).
  { apply (step_type 390 844
             (moveIntoView 390 844 (newTextElement "1" (390 / 2) (844 * (3 # 10))))
             "hi" editingDefault); [|done..].
    vm_compute. apply list_elem_of_here. }
  apply (rtc_l _ _ whiteChipEditing).
  { by apply step_background_control. }
  apply rtc_once. apply step_canvas_tap.
Qed.

(** C5 on a background chip. After a press on the default element, the
    typing of "hi", one press on the background control and a tap to leave,
    the element has [backgroundMode = white] and is displayed on a white
    chip; the record exported for it has [hasBackground = false], because
    the serializer copies the field [hasBackground], which the background
    control never writes, and never reads [backgroundMode].  The exported
    font size is [round (fontSize * scale)]. *)
Theorem export_ignores_backgroundMode :
  let pd := postData 390 844 None whiteChip in
  reachable 390 844 whiteChip
  /\ map El.backgroundMode (textElements whiteChip) = [white]
  /\ handlePost 390 844 None whiteChip = (setIsPosting true whiteChip, [ApiPost pd])
  /\ map Out.hasBackground (text_elements pd) = [false]
  /\ map Out.fontSize (text_elements pd) = [24%Z]
  /\ has_text_background pd = false
  /\ (forall s, map El.hasBackground (textElements (cycleBackgroundMode s))
               = map El.hasBackground (textElements s))
  /\ (forall el, Out.fontSize (exportElement el)
                 = Math_round (El.fontSize el * El.scale el)
                 /\ Out.hasBackground (exportElement el) = El.hasBackground el)
  /\ Math_round (24 * 2) = 48%Z /\ Math_round (10 * (3 # 10)) = 3%Z.
Proof.
  split_and!; [apply whiteChip_reachable | by vm_compute.. | | done | done | done].
  intros s. unfold cycleBackgroundMode.
  destruct (getCurrentTextElement s); [|done].
  unfold updateTextElement. simpl. rewrite map_map. apply map_ext.
  intros el. by case_bool_decide.
Qed.

(** ** Validation of the aggregate text *)

Lemma trimEnd_empty t : trimEnd t = "" <-> allWhite t = true.
Proof.
  induction t as [|c t IH]; simpl; [done|].
  rewrite andb_true_iff, <- IH.
  destruct (trimEnd t); destruct (isWhiteSpace c); split; try done.
  - by intros [? _].
  - by intros [_ ?].
  - by intros [_ ?].
Qed.

Lemma allWhite_trimStart t : allWhite (trimStart t) = allWhite t.
Proof.
  induction t as [|c t IH]; simpl; [done|].
  destruct (isWhiteSpace c) eqn:Hc; simpl; [done | by rewrite Hc].
Qed.

Lemma blank_allWhite t : blank t = allWhite t.
Proof.
  unfold blank, trim. rewrite <- (allWhite_trimStart t).
  destruct (trimEnd (trimStart t)) eqn:Ht; simpl.
  - symmetry. by apply trimEnd_empty.
  - symmetry. apply not_true_iff_false. rewrite <- trimEnd_empty. by rewrite Ht.
Qed.

Lemma allWhite_app a b : allWhite (a ++ b) = allWhite a && allWhite b.
Proof.
  induction a as [|c a IH]; simpl; [done|]. by rewrite IH, andb_assoc.
Qed.

Lemma allWhite_join l : allWhite (join " " l) = forallb allWhite l.
Proof.
  induction l as [|a l IH]; [done|].
  destruct l as [|b l].
  - simpl. by rewrite andb_true_r.
  - change (join " " (a :: b :: l)) with (a ++ " " ++ join " " (b :: l)).
    rewrite !allWhite_app, IH. done.
Qed.

(** A join of texts none of which is blank is blank only if there is no
    text at all. *)
Lemma blank_join_nonblank l :
  Forall (fun t => blank t = false) l ->
  blank (join " " l) = true -> l = [].
Proof.
  intros Hall. rewrite blank_allWhite, allWhite_join.
  destruct Hall as [|t l Ht _]; [done|].
  simpl. rewrite <- blank_allWhite, Ht. done.
Qed.

Lemma filter_map_comm {A B} (f : A -> B) (g : B -> bool) (l : list A) :
  List.filter g (map f l) = map f (List.filter (fun a => g (f a)) l).
Proof.
  induction l as [|a l IH]; simpl; [done|].
  destruct (g (f a)); simpl; by rewrite IH.
Qed.

Lemma allText_spec s :
  allText s
  = join " " (List.filter (fun t => negb (blank t))
                (map (getDisplayText s) (textElements s))).
Proof.
  unfold allText, currentElements.
  rewrite !filter_map_comm, map_map. simpl.
  f_equal. f_equal. apply filter_ext. intros el.
  unfold blank. by rewrite negb_involutive.
Qed.

Lemma allText_blank_empty s : blank (allText s) = true -> allText s = "".
Proof.
  rewrite allText_spec. intros Hb.
  apply blank_join_nonblank in Hb; [by rewrite Hb|].
  apply Forall_forall. intros t Ht.
  apply list_elem_of_In, filter_In in Ht as [_ Ht].
  by apply negb_true_iff in Ht.
Qed.

Lemma getDisplayText_no_buffer s el :
  localTextContent s = ∅ -> getDisplayText s el = El.content el.
Proof. intros Hm. unfold getDisplayText. by rewrite Hm, lookup_empty. Qed.

(** C3, as the code has it. The aggregate text joins with single spaces,
    in creation order, the texts of the elements that are not blank, each
    as it stands (a text is tested trimmed but joined untrimmed; the text
    of an element is its buffer entry if it has one, its content
    otherwise, which is its content once the buffer is empty).  The
    submission stops with the alert for an empty composition exactly when
    the aggregate is blank, with the alert for a too long one exactly when
    the aggregate has more than 500 characters, and reaches the backend
    only when neither is the case, with the aggregate as [text_content]. *)
Theorem handlePost_validation
    (screenWidth screenHeight : Q) (rd : option RepostData) (s : State) :
  let outcome := snd (handlePost screenWidth screenHeight rd s) in
  let emptyContent := Alert "Error" "Please add some text before posting" in
  let tooLong := Alert "Error" "Text must be under 500 characters" in
  allText s
  = join " " (List.filter (fun t => negb (blank t))
                (map (getDisplayText s) (textElements s)))
  /\ (localTextContent s = ∅ ->
      allText s
      = join " " (List.filter (fun t => negb (blank t))
                    (map El.content (textElements s))))
  /\ (outcome = [emptyContent] <-> blank (allText s) = true)
  /\ (outcome = [tooLong] <-> (500 < String.length (allText s))%nat)
  /\ (outcome = [emptyContent] \/ outcome = [tooLong]
      \/ outcome = [ApiPost (postData screenWidth screenHeight rd s)])
  /\ (forall pd, ApiPost pd ∈ outcome ->
        blank (allText s) = false
        /\ (String.length (allText s) <= 500)%nat
        /\ text_content pd = allText s).
Proof.
  intros outcome emptyContent tooLong.
  split; [apply allText_spec|].
  split.
  { intros Hm. rewrite allText_spec. do 2 f_equal.
    apply map_ext. intros el. by apply getDisplayText_no_buffer. }
  subst outcome. unfold handlePost. fold (blank (allText s)).
  destruct (blank (allText s)) eqn:Hb; simpl.
  - rewrite (allText_blank_empty s Hb). simpl.
    split_and!; [done | | by left |].
    + split; [done | lia].
    + intros pd Hin. apply list_elem_of_In in Hin as [Hin|[]]. done.
  - unfold maxLength.
    destruct (500 <? String.length (allText s))%nat eqn:Hlen; simpl.
    + apply Nat.ltb_lt in Hlen.
      split_and!; [done | done | by right; left |].
      intros pd Hin. apply list_elem_of_In in Hin as [Hin|[]]. done.
    + apply Nat.ltb_ge in Hlen.
      split_and!; [done | | by right; right |].
      * split; [done | lia].
      * intros pd Hin. apply list_elem_of_In in Hin as [[= <-]|[]]. done.
Qed.

(** Against C3 as stated. The aggregate is not made of trimmed texts: a draft of one letter
    followed by 500 spaces, committed on leaving [Editing], is rejected as
    too long, although the trimmed texts add up to one character. *)
Lemma trailing_blanks_count_towards_the_limit :
  trimmedAggregate (textElements paddedDraft) = "a"
  /\ allText paddedDraft <> trimmedAggregate (textElements paddedDraft)
  /\ String.length (allText paddedDraft) = 501%nat
  /\ snd (handlePost 390 844 None paddedDraft)
     = [Alert "Error" "Text must be under 500 characters"].
Proof.
  split_and!; [by vm_compute | | by vm_compute | by vm_compute].
  intros Heq. apply (f_equal String.length) in Heq. vm_compute in Heq. done.
Qed.

(** ** The store can become empty *)

Lemma getCurrentTextElement_singleton s e :
  textElements s = [e] -> getCurrentTextElement s = Some e.
Proof.
  intros Hels. unfold getCurrentTextElement, findById. rewrite Hels. simpl.
  by case_bool_decide.
Qed.

Lemma blank_exit_empties_singleton (screenWidth screenHeight : Q) event s e :
  isEditingText s = true -> textElements s = [e] ->
  blank (getDisplayText s e) = true ->
  textElements (handleCanvasTap screenWidth screenHeight event s) = [].
Proof.
  intros Hedit Hels Hb. unfold handleCanvasTap. rewrite Hedit.
  rewrite stopEditingText_textElements.
  destruct (removeIfBlank_blank s e) as [-> _];
    [by apply getCurrentTextElement_singleton | done |].
  rewrite Hels. simpl. by rewrite bool_decide_eq_true_2.
Qed.

(** C10. The floor of one element is kept by the long-press deletion
    only.  A tap on the canvas that leaves [Editing] with a blank draft
    removes the edited element even when it is the only one: from the
    initial state, a press on the default element followed by a tap on the
    canvas reaches a state whose store is empty, and a submission from
    that state stops with the alert for an empty composition. *)
Theorem blank_exit_can_empty_the_store
    (screenWidth screenHeight : Q) (rd : option RepostData) (event : TapEvent) :
  let init := initialState screenWidth screenHeight in
  let editing := startEditingText screenWidth screenHeight init "1" init in
  let emptied := handleCanvasTap screenWidth screenHeight event editing in
  deleteTextElement "1" init = init
  /\ length (textElements editing) = 1%nat
  /\ isEditingText editing = true
  /\ textElements emptied = []
  /\ reachable screenWidth screenHeight emptied
  /\ handlePost screenWidth screenHeight rd emptied
     = (emptied, [Alert "Error" "Please add some text before posting"])
  /\ (forall s e,
        isEditingText s = true -> textElements s = [e] ->
        blank (getDisplayText s e) = true ->
        textElements (handleCanvasTap screenWidth screenHeight event s) = []
        /\ deleteTextElement (El.id e) s = s).
Proof.
  intros init editing emptied.
  split_and!; [by vm_compute.. | | by vm_compute |].
  - unfold reachable. apply (rtc_l _ _ editing).
    + apply (step_press screenWidth screenHeight
               (newTextElement "1" (screenWidth / 2) (screenHeight * (3 # 10))) init).
      * apply list_elem_of_here.
      * by intros [? _].
    + apply rtc_once. apply step_canvas_tap.
  - intros s e Hedit Hels Hb. split.
    + by apply (blank_exit_empties_singleton _ _ _ s e).
    + unfold deleteTextElement. by rewrite Hels.
Qed.

(** ** The theorems at work on the scenarios *)

(** Leaving [Editing] after typing "hi" into the element created at
    (50, 50). *)
Lemma edit_exit_commits_and_clears_witness :
  isEditingText typedHi = true
  /\ map El.content (textElements committedHi) = [""; "hi"]
  /\ localTextContent committedHi = ∅
  /\ isEditingText committedHi = false.
Proof.
  split; [reflexivity|].
  destruct (edit_exit_commits_and_clears 390 844 tapAway typedHi eq_refl)
    as (_ & _ & _ & _ & Hkept & Hbuffer & Hflag & _).
  destruct (Hkept (newTextElement "1700000000000" 50 50) eq_refl eq_refl)
    as [Hels _].
  split; [|exact (conj Hbuffer Hflag)].
  unfold committedHi. rewrite Hels. reflexivity.
Defined.

(** A hundredfold pinch on the default element. *)
Lemma pinch_scale_clamped_witness :
  Ev.state hugePinch = ACTIVE /\ isEditingText phone = false
  /\ findById "1" (textElements phone) = Some defaultElement
  /\ scaleInRange (Math_max (3 # 10) (Math_min 5 (El.scale defaultElement * 100))).
Proof.
  split_and!; try reflexivity.
  exact (proj1 (proj2 (proj2
    (pinch_scale_clamped "1" hugePinch phone defaultElement eq_refl eq_refl eq_refl)))).
Defined.

(** A drag of the default element in two frames, ending 30 to the right
    and 40 up of where it began. *)
Lemma drag_follows_translation_witness :
  isEditingText phone = false
  /\ findById "1" (textElements phone) = Some defaultElement
  /\ findById "1"
       (textElements
          (panFrames [panBy 10 10; panBy 30 (-40)] "1"
             (handlePanStateChange panBegan "1" phone)))
     = Some {| El.id := "1"; El.content := "";
               El.x := El.x defaultElement + 30;
               El.y := El.y defaultElement + -40;
               El.originalX := None; El.originalY := None;
               El.fontSize := 24; El.color := "#FF1A1A";
               El.fontFamily := arial_black;
               El.hasBackground := false; El.backgroundColor := "#FFFFFF";
               El.backgroundMode := off; El.capsLock := true; El.scale := 1 |}
  /\ (El.x defaultElement + 30 == 225)%Q
  /\ (El.y defaultElement + -40 == 2132 # 10)%Q.
Proof.
  split; [reflexivity|]. split; [reflexivity|].
  assert (Hframes : Forall (fun ev => Ev.state ev = ACTIVE) [panBy 10 10])
    by (repeat constructor).
  split; [|split; reflexivity].
  exact (proj1 (proj2 (proj2
    (drag_follows_translation "1" panBegan (panBy 30 (-40)) panEnd [panBy 10 10]
       phone defaultElement eq_refl eq_refl eq_refl
       Hframes eq_refl (or_introl eq_refl))))).
Defined.

(** A long press on the default element, alone and next to a second
    element. *)
Lemma delete_keeps_the_last_element_witness :
  length (textElements phone) = 1%nat
  /\ deleteTextElement "1" phone = phone
  /\ (1 < length (textElements committedHi))%nat
  /\ textElements (deleteTextElement "1" committedHi)
     = List.filter (fun el => negb (bool_decide (El.id el = "1")))
         (textElements committedHi).
Proof.
  split; [reflexivity|].
  split; [exact (proj1 (delete_keeps_the_last_element "1" phone) eq_refl)|].
  assert (Hlen : (1 < length (textElements committedHi))%nat) by (vm_compute; lia).
  split; [exact Hlen|].
  exact (proj1 (proj2 (delete_keeps_the_last_element "1" committedHi) Hlen)).
Defined.

(** Gesture frames while the default element is edited. *)
Lemma gestures_ignored_while_editing_witness :
  isEditingText editingDefault = true
  /\ handlePanGesture (panBy 30 (-40)) "1" editingDefault = editingDefault
  /\ handlePinchGesture hugePinch "1" editingDefault = editingDefault.
Proof.
  split; [reflexivity|].
  destruct (gestures_ignored_while_editing (panBy 30 (-40)) "1" editingDefault eq_refl)
    as (Hpan & _).
  destruct (gestures_ignored_while_editing hugePinch "1" editingDefault eq_refl)
    as (_ & Hpinch & _).
  exact (conj Hpan Hpinch).
Defined.

(** The aggregate of the default element next to one that reads "hi". *)
Lemma handlePost_validation_witness :
  localTextContent committedHi = ∅
  /\ allText committedHi
     = join " " (List.filter (fun t => negb (blank t))
                   (map El.content (textElements committedHi)))
  /\ allText committedHi = "hi".
Proof.
  split; [reflexivity|].
  split; [|reflexivity].
  exact (proj1 (proj2 (handlePost_validation 390 844 None committedHi)) eq_refl).
Defined.

(** The box of an element other than the default one. *)
Lemma hit_test_first_in_creation_order_witness :
  El.id (newTextElement "1700000000000" 50 50) <> "1"
  /\ (hitTest 60 60 (newTextElement "1700000000000" 50 50) = true <->
      (50 - 100 <= 60 /\ 60 <= 50 + 100 /\ 50 - 25 <= 60 /\ 60 <= 50 + 25)%Q).
Proof.
  assert (Hid : El.id (newTextElement "1700000000000" 50 50) <> "1") by (simpl; congruence).
  split; [exact Hid|].
  exact (proj2 (proj2 (proj2 (hit_test_first_in_creation_order phone 60 60)))
           (newTextElement "1700000000000" 50 50) Hid).
Defined.

(** Leaving the editing of the untouched default element. *)
Lemma blank_exit_can_empty_the_store_witness :
  isEditingText editingDefault = true
  /\ length (textElements editingDefault) = 1%nat
  /\ textElements (handleCanvasTap 390 844 tapAway editingDefault) = [].
Proof.
  split; [reflexivity|]. split; [reflexivity|].
  destruct (blank_exit_can_empty_the_store 390 844 None tapAway)
    as (_ & _ & _ & _ & _ & _ & Hgeneral).
  exact (proj1 (Hgeneral editingDefault (moveIntoView 390 844 defaultElement)
                  eq_refl eq_refl eq_refl)).
Defined.

(** * Further properties of the composer *)

(** ** Invariants of the reachable states *)

Lemma elementInv_spread el u :
  elementInv el ->
  (forall v, u_scale u = Some v -> scaleInRange v) ->
  (forall v, u_fontSize u = Some v -> fontSizeInRange v) ->
  u_hasBackground u = None ->
  elementInv (spread el u).
Proof.
  intros (Hs & Hf & Hb & Hc) Hus Huf Hub. unfold elementInv. simpl.
  rewrite Hub. simpl. split_and!; [| |done..].
  - destruct (u_scale u); simpl; [by apply Hus | done].
  - destruct (u_fontSize u); simpl; [by apply Huf | done].
Qed.

Lemma elementInv_moveIntoView (screenWidth screenHeight : Q) el :
  elementInv el -> elementInv (moveIntoView screenWidth screenHeight el).
Proof. done. Qed.

Lemma elementInv_newTextElement i px py : elementInv (newTextElement i px py).
Proof.
  unfold elementInv, scaleInRange, fontSizeInRange. simpl.
  split_and!; done.
Qed.

Lemma Forall_elementInv_update i u els :
  Forall elementInv els ->
  (forall v, u_scale u = Some v -> scaleInRange v) ->
  (forall v, u_fontSize u = Some v -> fontSizeInRange v) ->
  u_hasBackground u = None ->
  Forall elementInv
    (map (fun el => if bool_decide (El.id el = i) then spread el u else el) els).
Proof.
  intros Hall Hus Huf Hub. apply Forall_map.
  eapply Forall_impl; [exact Hall|]. intros el Hel. simpl.
  case_bool_decide; [by apply elementInv_spread | done].
Qed.

Lemma Forall_elementInv_mutateFirst i f els :
  (forall el, elementInv el -> elementInv (f el)) ->
  Forall elementInv els -> Forall elementInv (mutateFirst i f els).
Proof.
  intros Hf. induction 1 as [|el els Hel Hall IH]; simpl; [done|].
  case_bool_decide; constructor; auto.
Qed.

Lemma Forall_elementInv_commit U m els :
  (forall c, (forall v, u_scale (U c) = Some v -> scaleInRange v)
             /\ (forall v, u_fontSize (U c) = Some v -> fontSizeInRange v)
             /\ u_hasBackground (U c) = None) ->
  Forall elementInv els -> Forall elementInv (map (commitWith U m) els).
Proof.
  intros HU Hall. apply Forall_map.
  eapply Forall_impl; [exact Hall|]. intros el Hel. simpl.
  unfold commitWith. destruct (m !! El.id el) as [c|]; [|done].
  destruct (HU c) as (? & ? & ?). by apply elementInv_spread.
Qed.

Lemma Forall_elementInv_filter (f : TextElement -> bool) els :
  Forall elementInv els -> Forall elementInv (List.filter f els).
Proof.
  induction 1 as [|el els Hel Hall IH]; simpl; [done|].
  destruct (f el); [by constructor | done].
Qed.

Lemma composerInv_updateTextElement i u s :
  composerInv s ->
  (forall v, u_scale u = Some v -> scaleInRange v) ->
  (forall v, u_fontSize u = Some v -> fontSizeInRange v) ->
  u_hasBackground u = None ->
  composerInv (updateTextElement i u s).
Proof.
  intros (H1 & H2 & H3 & H4 & H5) Hus Huf Hub.
  unfold composerInv, updateTextElement. simpl.
  split_and!; [done..|]. by apply Forall_elementInv_update.
Qed.

Lemma composerInv_startEditingText (screenWidth screenHeight : Q) s i p :
  Forall elementInv (textElements s) ->
  Forall elementInv (textElements p) ->
  fontSizeInRange (currentFontSize p) ->
  composerInv (startEditingText screenWidth screenHeight s i p).
Proof.
  intros Hs Hp Hf. unfold startEditingText, moveTextIntoViewForEditing.
  destruct (findById i (textElements s)) as [el|] eqn:Hfind;
    unfold composerInv; simpl; split_and!; try done.
  - apply findById_elem_of in Hfind.
    rewrite Forall_forall in Hs. by destruct (Hs el Hfind) as (_ & ? & _).
  - apply Forall_elementInv_mutateFirst; [|done].
    apply elementInv_moveIntoView.
Qed.

Lemma slider_fontSizeInRange ev s :
  fontSizeInRange (currentFontSize (handleSliderGesture ev s)).
Proof.
  unfold handleSliderGesture, fontSizeInRange, Math_max, Math_min. simpl.
  set (q := (1 - Ev.translationY ev / 200)%Q).
  assert (H0 : (0 <= Qmax 0 (Qmin 1 q))%Q) by apply Q.le_max_l.
  assert (H1 : (Qmax 0 (Qmin 1 q) <= 1)%Q).
  { apply Q.max_lub; [done | apply Q.le_min_l]. }
  revert H0 H1. generalize (Qmax 0 (Qmin 1 q)). intros p H0 H1.
  split; lra.
Qed.

Lemma composerInv_initial (screenWidth screenHeight : Q) :
  composerInv (initialState screenWidth screenHeight).
Proof.
  unfold composerInv, fontSizeInRange. simpl. split_and!; try done.
  constructor; [apply elementInv_newTextElement | constructor].
Qed.

Lemma composerInv_stopEditingText s p :
  fontSizeInRange (currentFontSize s) -> fontSizeInRange (currentFontSize p) ->
  Forall elementInv (textElements p) ->
  composerInv (stopEditingText s p).
Proof.
  intros Hfs Hfp Hp. unfold stopEditingText. rewrite forEach_entries.
  unfold composerInv. simpl. split_and!; try done.
  apply Forall_elementInv_commit; [|done].
  intros c. simpl. split_and!; [done | by intros v [= <-] | done].
Qed.

Lemma Forall_elementInv_removeIfBlank s :
  Forall elementInv (textElements s) ->
  Forall elementInv (textElements (removeIfBlank s))
  /\ currentFontSize (removeIfBlank s) = currentFontSize s.
Proof.
  intros Hs. unfold removeIfBlank.
  destruct (getCurrentTextElement s); [|done].
  destruct (truthy _); [done|]. simpl.
  split; [by apply Forall_elementInv_filter | done].
Qed.

Lemma composerInv_handleCanvasTap (screenWidth screenHeight : Q) ev s :
  composerInv s -> composerInv (handleCanvasTap screenWidth screenHeight ev s).
Proof.
  intros (H1 & H2 & H3 & H4 & H5). unfold handleCanvasTap.
  destruct (isEditingText s).
  - destruct (Forall_elementInv_removeIfBlank s H5) as [Hels Hfs].
    apply composerInv_stopEditingText; [done | by rewrite Hfs | done].
  - destruct (findElementAtPosition s _ _).
    + by apply composerInv_startEditingText.
    + apply composerInv_startEditingText; simpl; [done | | done].
      apply Forall_app. split; [done|].
      constructor; [apply elementInv_newTextElement | constructor].
Qed.

Lemma composerInv_step (screenWidth screenHeight : Q) s s' :
  step screenWidth screenHeight s s' -> composerInv s -> composerInv s'.
Proof.
  intros Hstep Hinv.
  destruct Hstep as [ev s | el s _ _ | el s _ _ | el t s _ Hed _ | newId s
                     | s _ | ev s _ | ev el s _ _ | ev el s _ _ | ev el s _ _].
  - by apply composerInv_handleCanvasTap.
  - destruct Hinv as (H1 & H2 & H3 & H4 & H5).
    by apply composerInv_startEditingText.
  - destruct Hinv as (H1 & H2 & H3 & H4 & H5).
    unfold deleteTextElement. destruct (1 <? _)%nat; [|done].
    case_bool_decide; unfold composerInv; simpl;
      (split_and!; [done..|by apply Forall_elementInv_filter]).
  - destruct Hinv as (H1 & H2 & H3 & H4 & H5).
    unfold composerInv, handleTextInputChange. simpl.
    split_and!; try done. by rewrite Hed.
  - destruct Hinv as (H1 & H2 & H3 & H4 & H5).
    apply composerInv_startEditingText; simpl; [done | | done].
    apply Forall_app. split; [done|].
    constructor; [apply elementInv_newTextElement | constructor].
  - unfold cycleBackgroundMode. destruct (getCurrentTextElement s); [|done].
    by apply composerInv_updateTextElement.
  - pose proof (slider_fontSizeInRange ev s) as Hf.
    destruct Hinv as (H1 & H2 & H3 & H4 & H5).
    unfold composerInv. split_and!; done.
  - destruct Hinv as (H1 & H2 & H3 & H4 & H5).
    unfold handlePanStateChange.
    repeat (case_bool_decide || case_match || simpl);
      unfold composerInv; simpl; split_and!; done.
  - unfold handlePanGesture. destruct (_ || _); [done|].
    destruct (dragStart s !! El.id el); [|done].
    by apply composerInv_updateTextElement.
  - unfold handlePinchGesture. case_bool_decide; [|done].
    destruct (findById _ _); [|done]. destruct (negb _); [|done].
    apply composerInv_updateTextElement; try done.
    intros v [= <-]. apply clamp_scaleInRange.
Qed.

Lemma composerInv_handlePost (screenWidth screenHeight : Q) rd s :
  composerInv s -> composerInv (handlePost screenWidth screenHeight rd s).1.
Proof.
  intros (H1 & H2 & H3 & H4 & H5). unfold handlePost.
  rewrite forEach_entries.
  assert (Hels : Forall elementInv
                   (map (commitWith contentOnly (localTextContent s)) (textElements s))).
  { by apply Forall_elementInv_commit. }
  destruct (negb _); [|destruct (_ <? _)%nat];
    unfold composerInv; simpl; split_and!; done.
Qed.

Lemma composerInv_uiStep (screenWidth screenHeight : Q) rd s s' :
  uiStep screenWidth screenHeight rd s s' -> composerInv s -> composerInv s'.
Proof.
  intros Hstep Hinv.
  destruct Hstep as [s s' Hstep | s _ | key s _ | c s _ _ | i s | s _ _ | s _].
  - by apply (composerInv_step screenWidth screenHeight s).
  - unfold toggleCapsLock. destruct (getCurrentTextElement s); [|done].
    by apply composerInv_updateTextElement.
  - unfold selectFont. destruct (getCurrentTextElement s); [|done].
    by apply composerInv_updateTextElement.
  - unfold selectColor. destruct (getCurrentTextElement s); [|done].
    by apply composerInv_updateTextElement.
  - done.
  - by apply composerInv_handlePost.
  - done.
Qed.

Lemma composerInv_reachable (screenWidth screenHeight : Q) rd s :
  uiReachable screenWidth screenHeight rd s -> composerInv s.
Proof.
  unfold uiReachable. intros Hreach.
  assert (Hgen : forall s0, rtc (uiStep screenWidth screenHeight rd) s0 s ->
                            composerInv s0 -> composerInv s).
  { clear Hreach. intros s0 Hr. induction Hr as [|s0 s1 s2 Hstep _ IH]; [done|].
    intros Hinv. apply IH. exact (composerInv_uiStep _ _ _ _ _ Hstep Hinv). }
  apply (Hgen _ Hreach), composerInv_initial.
Qed.

Lemma uiReachable_of_reachable (screenWidth screenHeight : Q) rd s :
  reachable screenWidth screenHeight s -> uiReachable screenWidth screenHeight rd s.
Proof.
  unfold reachable, uiReachable. apply rtc_subrel.
  intros s1 s2. apply ui_step.
Qed.

Lemma currentElements_no_buffer s :
  localTextContent s = ∅ -> currentElements s = textElements s.
Proof.
  intros Hm. unfold currentElements.
  rewrite (map_ext _ (fun el => el)); [apply map_id|].
  intros el. rewrite getDisplayText_no_buffer by done. by destruct el.
Qed.

(** X1. The flags of the editing mode move together, and the buffer is
    empty whenever nothing is edited: the Post button, rendered only then,
    always serializes the committed store and leaves it as it is. *)
Theorem buffer_empty_outside_editing
    (screenWidth screenHeight : Q) (rd : option RepostData) (s : State) :
  uiReachable screenWidth screenHeight rd s ->
  showControlBar s = isEditingText s
  /\ screenDarkened s = isEditingText s
  /\ (isEditingText s = false ->
      localTextContent s = ∅
      /\ currentElements s = textElements s
      /\ textElements (handlePost screenWidth screenHeight rd s).1 = textElements s).
Proof.
  intros Hreach.
  destruct (composerInv_reachable _ _ _ _ Hreach) as (H1 & H2 & H3 & _).
  split_and!; [done | done |]. intros Hview.
  pose proof (H3 Hview) as Hm. split_and!; [done | by apply currentElements_no_buffer |].
  unfold handlePost. rewrite Hm, map_to_list_empty. simpl.
  by destruct (negb _); [|destruct (_ <? _)%nat].
Qed.

(** X2. In every state the interface can reach, the scale of every
    element lies in [0.3, 5.0], and the editing font size and the font
    size of every element lie in [8, 72]. *)
Theorem scale_and_font_size_bounds
    (screenWidth screenHeight : Q) (rd : option RepostData) (s : State) :
  uiReachable screenWidth screenHeight rd s ->
  (8 <= currentFontSize s <= 72)%Q
  /\ (forall el, el ∈ textElements s ->
        (3 # 10 <= El.scale el <= 5)%Q /\ (8 <= El.fontSize el <= 72)%Q).
Proof.
  intros Hreach.
  destruct (composerInv_reachable _ _ _ _ Hreach) as (_ & _ & _ & H4 & H5).
  split; [done|]. intros el Hel. rewrite Forall_forall in H5.
  by destruct (H5 el Hel) as (? & ? & _).
Qed.

Lemma Math_round_bounds (fs sc : Q) :
  (8 <= fs <= 72)%Q -> (3 # 10 <= sc <= 5)%Q ->
  (2 <= Math_round (fs * sc) <= 360)%Z.
Proof.
  intros [Hf1 Hf2] [Hs1 Hs2]. unfold Math_round. split.
  - change 2%Z with (Qfloor (29 # 10)). apply Qfloor_resp_le. nra.
  - change 360%Z with (Qfloor (721 # 2)). apply Qfloor_resp_le. nra.
Qed.

Lemma orNumber_nonzero v d : ~ (v == 0)%Q -> orNumber v d = v.
Proof.
  intros Hv. unfold orNumber. destruct (Qeq_bool v 0) eqn:Heq; [|done].
  by apply Qeq_bool_iff in Heq.
Qed.

(** X3. In every reachable state, every font size of the payload the
    serializer builds, those of the records of [text_elements] and the
    legacy [font_size], is an integer between 2 and 360. *)
Theorem exported_font_size_bounds
    (screenWidth screenHeight : Q) (rd : option RepostData) (s : State) :
  uiReachable screenWidth screenHeight rd s ->
  let pd := postData screenWidth screenHeight rd s in
  Forall (fun r => (2 <= Out.fontSize r <= 360)%Z) (text_elements pd)
  /\ (2 <= font_size pd <= 360)%Z.
Proof.
  intros Hreach pd.
  assert (Hels : forall el, el ∈ textElements s ->
            (3 # 10 <= El.scale el <= 5)%Q /\ (8 <= El.fontSize el <= 72)%Q).
  { destruct (composerInv_reachable _ _ _ _ Hreach) as (_ & _ & _ & _ & H5).
    rewrite Forall_forall in H5. intros el Hel.
    by destruct (H5 el Hel) as (? & ? & _). }
  subst pd. unfold postData, currentElements. simpl. split.
  - rewrite map_map. apply Forall_map, Forall_forall. intros el Hel. simpl.
    destruct (Hels el Hel). by apply Math_round_bounds.
  - destruct (textElements s) as [|el els] eqn:Hstore; simpl; [done|].
    destruct (Hels el) as [Hsc Hfs]; [apply list_elem_of_here|].
    rewrite !orNumber_nonzero; [by apply Math_round_bounds | |].
    + intros H0. destruct Hsc as [Hsc _]. rewrite H0 in Hsc. by apply Hsc.
    + intros H0. destruct Hfs as [Hfs _]. rewrite H0 in Hfs. by apply Hfs.
Qed.

(** X4. No control writes [hasBackground] or the [backgroundColor] of an
    element: in every reachable state they are [false] and ["#FFFFFF"]
    for every element, whatever its [backgroundMode], and so are they in
    every record of the payload. *)
Theorem background_fields_never_change
    (screenWidth screenHeight : Q) (rd : option RepostData) (s : State) :
  uiReachable screenWidth screenHeight rd s ->
  let pd := postData screenWidth screenHeight rd s in
  (forall el, el ∈ textElements s ->
     El.hasBackground el = false /\ El.backgroundColor el = "#FFFFFF")
  /\ Forall (fun r => Out.hasBackground r = false /\ Out.backgroundColor r = "#FFFFFF")
       (text_elements pd)
  /\ has_text_background pd = false
  /\ text_background_color pd = None.
Proof.
  intros Hreach pd.
  destruct (composerInv_reachable _ _ _ _ Hreach) as (_ & _ & _ & _ & H5).
  rewrite Forall_forall in H5.
  assert (Hcur : forall el, el ∈ currentElements s ->
                   El.hasBackground el = false /\ El.backgroundColor el = "#FFFFFF").
  { intros el' (el & -> & Hel)%list_elem_of_fmap.
    by destruct (H5 el Hel) as (_ & _ & ? & ?). }
  split_and!.
  - intros el Hel. by destruct (H5 el Hel) as (_ & _ & ? & ?).
  - subst pd. unfold postData. simpl.
    apply Forall_map, Forall_forall. intros el Hel. by apply Hcur.
  - subst pd. unfold postData. simpl.
    destruct (currentElements s) as [|el els]; simpl; [done|].
    destruct (Hcur el) as [? _]; [apply list_elem_of_here | done].
  - subst pd. unfold postData. simpl.
    destruct (currentElements s) as [|el els]; simpl; [done|].
    destruct (Hcur el) as [Hb _]; [apply list_elem_of_here|]. by rewrite Hb.
Qed.

(** ** Updates, typing and the controls *)

Lemma findById_None i els :
  findById i els = None <-> Forall (fun el => El.id el <> i) els.
Proof.
  unfold findById. rewrite find_none_Forall.
  split; intros H; (eapply Forall_impl; [exact H|]);
    intros el; simpl; by rewrite bool_decide_eq_false.
Qed.

Lemma spread_overlay el u v : spread (spread el u) v = spread el (overlay u v).
Proof.
  destruct u as [u1 u2 u3 u4 u5 u6 u7 u8 u9 u10], v as [v1 v2 v3 v4 v5 v6 v7 v8 v9 v10].
  unfold spread, overlay. simpl.
  f_equal;
    match goal with
    | |- default _ ?o = _ => by destruct o
    end.
Qed.

Lemma spread_noUpdates el : spread el noUpdates = el.
Proof. by destruct el. Qed.

Lemma overlay_same u : overlay u u = u.
Proof.
  destruct u as [u1 u2 u3 u4 u5 u6 u7 u8 u9 u10]. unfold overlay. simpl.
  f_equal;
    match goal with
    | |- match ?o with _ => _ end = _ => by destruct o
    end.
Qed.

Lemma updateTextElement_twice i u v s :
  updateTextElement i v (updateTextElement i u s) = updateTextElement i (overlay u v) s.
Proof.
  unfold updateTextElement, setTextElements. simpl. f_equal.
  rewrite map_map. apply map_ext. intros el.
  destruct (decide (El.id el = i)) as [Hi|Hi].
  - rewrite (bool_decide_eq_true_2 _ Hi). cbv iota.
    rewrite spread_id, (bool_decide_eq_true_2 _ Hi). apply spread_overlay.
  - rewrite (bool_decide_eq_false_2 _ Hi). cbv iota.
    by rewrite (bool_decide_eq_false_2 _ Hi).
Qed.

(** X5. Queued updates compose.  Two updates for one id amount to one
    update that carries the fields of the later laid over those of the
    earlier, so that the later value of a field wins and an update queued
    twice does no more than once; updates for different ids give the same
    store in either order; the empty update, and an update for an id that
    no element has, leave the state as it is. *)
Theorem updateTextElement_composes (i j : string) (u v : Partial) (s : State) :
  updateTextElement i v (updateTextElement i u s) = updateTextElement i (overlay u v) s
  /\ updateTextElement i u (updateTextElement i u s) = updateTextElement i u s
  /\ (i <> j ->
      updateTextElement j v (updateTextElement i u s)
      = updateTextElement i u (updateTextElement j v s))
  /\ updateTextElement i noUpdates s = s
  /\ (findById i (textElements s) = None -> updateTextElement i u s = s).
Proof.
  split_and!.
  - apply updateTextElement_twice.
  - by rewrite updateTextElement_twice, overlay_same.
  - intros Hne. unfold updateTextElement, setTextElements. simpl. f_equal.
    rewrite !map_map. apply map_ext. intros el.
    destruct (decide (El.id el = i)) as [Hi|Hi], (decide (El.id el = j)) as [Hj|Hj].
    + exfalso. apply Hne. by rewrite <- Hi, <- Hj.
    + by repeat first [ rewrite (bool_decide_eq_true_2 _ Hi)
                      | rewrite (bool_decide_eq_false_2 _ Hj)
                      | rewrite spread_id | progress cbv iota ].
    + by repeat first [ rewrite (bool_decide_eq_false_2 _ Hi)
                      | rewrite (bool_decide_eq_true_2 _ Hj)
                      | rewrite spread_id | progress cbv iota ].
    + by repeat first [ rewrite (bool_decide_eq_false_2 _ Hi)
                      | rewrite (bool_decide_eq_false_2 _ Hj)
                      | progress cbv iota ].
  - unfold updateTextElement, setTextElements. simpl.
    rewrite (map_ext _ (fun el => el)), map_id; [apply State_eta|].
    intros el. case_bool_decide; [apply spread_noUpdates | done].
  - intros Hnone. apply findById_None in Hnone.
    unfold updateTextElement, setTextElements. simpl.
    rewrite (map_ext_Forall _ (fun el => el)), map_id; [apply State_eta|].
    eapply Forall_impl; [exact Hnone|]. intros el Hid. simpl.
    by rewrite bool_decide_eq_false_2.
Qed.

(** X6. Typing goes to the buffer only: the store is untouched, the
    text shown for the elements with the typed id is the draft, the text
    shown for the others is what it was, and a later draft replaces an
    earlier one. *)
Theorem typing_is_buffered (i t : string) (s : State) :
  let s' := handleTextInputChange i t s in
  textElements s' = textElements s
  /\ (forall el, El.id el = i -> getDisplayText s' el = t)
  /\ (forall el, El.id el <> i -> getDisplayText s' el = getDisplayText s el)
  /\ (forall t0, handleTextInputChange i t (handleTextInputChange i t0 s) = s').
Proof.
  unfold handleTextInputChange, getDisplayText. simpl. split_and!.
  - done.
  - intros el ->. by rewrite lookup_insert_eq.
  - intros el Hne. by rewrite lookup_insert_ne.
  - intros t0. unfold setLocalTextContent. simpl. by rewrite insert_insert_eq.
Qed.

(** X7. The slider never leaves [8, 72]: its font size is 72 when the
    handle is dragged up or not at all, 8 when it is dragged down by 200
    units or more, and falls linearly in between; it changes nothing
    else, in particular no element, until the editing ends. *)
Theorem slider_font_size (ev : GestureEvent) (s : State) :
  let s' := handleSliderGesture ev s in
  (8 <= currentFontSize s' <= 72)%Q
  /\ (Ev.translationY ev <= 0 -> currentFontSize s' == 72)%Q
  /\ (200 <= Ev.translationY ev -> currentFontSize s' == 8)%Q
  /\ (0 <= Ev.translationY ev <= 200 ->
      currentFontSize s' == 72 - Ev.translationY ev * (8 # 25))%Q
  /\ textElements s' = textElements s
  /\ localTextContent s' = localTextContent s.
Proof.
  split; [apply slider_fontSizeInRange|].
  unfold handleSliderGesture, Math_max, Math_min. simpl.
  unfold Qdiv. change (/ 200)%Q with (1 # 200)%Q.
  set (q := (1 - Ev.translationY ev * (1 # 200))%Q).
  split_and!; [| | |done..].
  - intros Hty. assert (Hq : (1 <= q)%Q) by (subst q; lra).
    rewrite (Q.min_l 1 q Hq), Q.max_r by done. lra.
  - intros Hty. assert (Hq : (q <= 0)%Q) by (subst q; lra).
    rewrite Q.min_r by lra. rewrite Q.max_l by done. lra.
  - intros [H0 H200]. assert (Hq : (0 <= q <= 1)%Q) by (subst q; split; lra).
    rewrite Q.min_r by apply Hq. rewrite Q.max_r by apply Hq. subst q. lra.
Qed.

(** X8. The canvas background cycles through the seven options: the
    index stays below 7, the colour is the option at the index, nothing
    else of the state changes, and seven presses bring back the index and
    the colour one started from. *)
Theorem cycleBackgroundColor_cycles (i : nat) (s : State) :
  let next := cycleBackgroundColor i s in
  (next.1 < 7)%nat
  /\ backgroundOptions !! next.1 = Some (backgroundColor next.2)
  /\ textElements next.2 = textElements s
  /\ ((i < 7)%nat ->
      Nat.iter 7 (fun p => cycleBackgroundColor p.1 p.2) (i, s)
      = (i, setBackgroundColor (nth i backgroundOptions "") s)).
Proof.
  intros next. subst next. unfold cycleBackgroundColor.
  change (length backgroundOptions) with 7%nat.
  assert (Hlt : ((i + 1) mod 7 < 7)%nat) by (apply Nat.mod_upper_bound; lia).
  split_and!.
  - exact Hlt.
  - revert Hlt. generalize ((i + 1) mod 7)%nat. intros j Hj.
    do 7 (destruct j as [|j]; [done|]). lia.
  - done.
  - intros Hi. do 7 (destruct i as [|i]; [reflexivity|]). lia.
Qed.

Lemma getCurrentTextElement_update u s el :
  getCurrentTextElement s = Some el ->
  getCurrentTextElement (updateTextElement (El.id el) u s) = Some (spread el u).
Proof.
  unfold getCurrentTextElement, updateTextElement. simpl.
  rewrite findById_map by (intros e; by case_bool_decide).
  destruct (findById (selectedTextId s) (textElements s)) as [e|]; simpl.
  - intros [= ->]. by rewrite bool_decide_eq_true_2.
  - destruct (textElements s) as [|e els]; simpl; [done|].
    intros [= ->]. by rewrite bool_decide_eq_true_2.
Qed.

(** X9. The background control runs through off, white, inverted and
    back: one press gives the current element the next mode, three presses
    give it back as it was, and no press touches an element with another
    id. *)
Theorem cycleBackgroundMode_period_three (s : State) (el : TextElement) :
  getCurrentTextElement s = Some el ->
  let next m := match m with off => white | white => inverted | inverted => off end in
  let s3 := cycleBackgroundMode (cycleBackgroundMode (cycleBackgroundMode s)) in
  getCurrentTextElement (cycleBackgroundMode s)
  = Some (spread el (backgroundModeOnly (next (El.backgroundMode el))))
  /\ getCurrentTextElement s3 = Some el
  /\ (forall k e, textElements s !! k = Some e -> El.id e <> El.id el ->
        textElements s3 !! k = Some e).
Proof.
  intros Hcur next s3.
  assert (Hone : forall s0 e, getCurrentTextElement s0 = Some e ->
            cycleBackgroundMode s0
            = updateTextElement (El.id e)
                (backgroundModeOnly (next (El.backgroundMode e))) s0).
  { intros s0 e He. unfold cycleBackgroundMode. by rewrite He. }
  set (el1 := spread el (backgroundModeOnly (next (El.backgroundMode el)))).
  set (el2 := spread el1 (backgroundModeOnly (next (El.backgroundMode el1)))).
  assert (H1 : getCurrentTextElement (cycleBackgroundMode s) = Some el1).
  { rewrite (Hone s el Hcur). by apply getCurrentTextElement_update. }
  assert (H2 : getCurrentTextElement (cycleBackgroundMode (cycleBackgroundMode s))
               = Some el2).
  { rewrite (Hone _ el1 H1). by apply (getCurrentTextElement_update _ _ el1). }
  split_and!; [done | |].
  - subst s3. rewrite (Hone _ el2 H2).
    rewrite (getCurrentTextElement_update _ _ el2 H2). f_equal.
    subst el2 el1 next. destruct el as [? ? ? ? ? ? ? ? ? ? ? m ? ?].
    by destruct m.
  - intros k e Hk Hne. subst s3.
    rewrite (Hone _ el2 H2), (Hone _ el1 H1), (Hone s el Hcur).
    unfold updateTextElement. subst el2 el1. simpl.
    rewrite !list_lookup_fmap, Hk. simpl.
    rewrite (bool_decide_eq_false_2 (El.id e = El.id el)) by done. simpl.
    rewrite (bool_decide_eq_false_2 (El.id e = El.id el)) by done. simpl.
    by rewrite (bool_decide_eq_false_2 (El.id e = El.id el)) by done.
Qed.

(** ** More on gestures *)

(** X10. A pan frame moves nothing without a snapshot: when no begin
    event has stored one, when the begin event named an element that is
    not in the store, when the gesture has ended, and when the frame is
    not an active one. *)
Theorem pan_needs_a_snapshot (ev began ended : GestureEvent) (i : string) (s : State) :
  (dragStart s !! i = None -> handlePanGesture ev i s = s)
  /\ (Ev.state began = BEGAN -> findById i (textElements s) = None ->
      handlePanStateChange began i s = s)
  /\ (Ev.state ended = END \/ Ev.state ended = CANCELLED \/ Ev.state ended = FAILED ->
      handlePanGesture ev i (handlePanStateChange ended i s)
      = handlePanStateChange ended i s)
  /\ (Ev.state ev <> ACTIVE -> handlePanGesture ev i s = s).
Proof.
  split_and!.
  - intros Hnone. unfold handlePanGesture. rewrite Hnone.
    by destruct (_ || _).
  - intros Hev Hnone. unfold handlePanStateChange. by rewrite Hev, Hnone.
  - intros Hended. rewrite handlePanStateChange_ended by done.
    unfold handlePanGesture. simpl. rewrite lookup_delete_eq.
    by destruct (_ || _).
  - intros Hev. unfold handlePanGesture.
    by rewrite bool_decide_eq_false_2.
Qed.

Lemma handlePinchGesture_cases ev i s :
  (handlePinchGesture ev i s = s
   /\ (Ev.state ev <> ACTIVE \/ findById i (textElements s) = None
       \/ isEditingText s = true))
  \/ (exists el, Ev.state ev = ACTIVE /\ findById i (textElements s) = Some el
                 /\ isEditingText s = false
                 /\ handlePinchGesture ev i s
                    = updateTextElement i
                        (scaleOnly (Math_max (3 # 10)
                                      (Math_min 5 (El.scale el * Ev.scale ev)))) s).
Proof.
  unfold handlePinchGesture. case_bool_decide as Hev; [|by left; split; [|left]].
  destruct (findById i (textElements s)) as [el|]; [|by left; split; [|right; left]].
  destruct (isEditingText s); simpl; [by left; split; [|right; right]|].
  right. by exists el.
Qed.

Lemma handlePanGesture_cases ev j s :
  (handlePanGesture ev j s = s
   /\ (Ev.state ev <> ACTIVE \/ isEditingText s = true \/ dragStart s !! j = None))
  \/ (exists start, Ev.state ev = ACTIVE /\ isEditingText s = false
                    /\ dragStart s !! j = Some start
                    /\ handlePanGesture ev j s
                       = updateTextElement j
                           (positionOnly (start.1 + Ev.translationX ev)
                                         (start.2 + Ev.translationY ev)) s).
Proof.
  unfold handlePanGesture. case_bool_decide as Hev; simpl; [|by left; split; [|left]].
  destruct (isEditingText s); [by left; split; [|right; left]|].
  destruct (dragStart s !! j) as [start|]; [|by left; split; [|right; right]].
  right. by exists start.
Qed.

Lemma updateTextElement_scale_position_comm i j v px py s :
  updateTextElement i (scaleOnly v) (updateTextElement j (positionOnly px py) s)
  = updateTextElement j (positionOnly px py) (updateTextElement i (scaleOnly v) s).
Proof.
  unfold updateTextElement, setTextElements. simpl. f_equal.
  rewrite !map_map. apply map_ext. intros el.
  repeat (case_bool_decide; simpl); done.
Qed.

(** X11. A pan frame and a pinch frame, on the same element or on two
    elements, can be handled in either order: the state they leave is the
    same. *)
Theorem pan_and_pinch_commute (pan pinch : GestureEvent) (i j : string) (s : State) :
  handlePinchGesture pinch i (handlePanGesture pan j s)
  = handlePanGesture pan j (handlePinchGesture pinch i s).
Proof.
  destruct (handlePanGesture_cases pan j s) as [[Hpan Hwhy] | (start & Hp1 & Hp2 & Hp3 & Hpan)];
  destruct (handlePinchGesture_cases pinch i s)
    as [[Hpinch Hwhy'] | (el & Hq1 & Hq2 & Hq3 & Hpinch)].
  - by rewrite Hpan, Hpinch, Hpan.
  - rewrite Hpan, Hpinch. unfold handlePanGesture. simpl.
    destruct Hwhy as [Hev | [Hed | Hd]].
    + by rewrite bool_decide_eq_false_2.
    + congruence.
    + rewrite Hd. by destruct (_ || _).
  - rewrite Hpan, Hpinch. unfold handlePinchGesture. simpl.
    destruct Hwhy' as [Hev | [Hf | Hed]].
    + by rewrite bool_decide_eq_false_2.
    + rewrite findById_map by (intros e; by case_bool_decide).
      rewrite Hf. simpl. by case_bool_decide.
    + congruence.
  - rewrite Hpan, Hpinch.
    rewrite (handlePanGesture_active pan j _ start) by done.
    unfold handlePinchGesture at 1. rewrite Hq1. simpl.
    rewrite findById_map by (intros e; by case_bool_decide).
    rewrite Hq2, Hq3. simpl.
    replace (El.scale (if bool_decide (El.id el = j) then _ else el))
      with (El.scale el) by (by case_bool_decide).
    apply updateTextElement_scale_position_comm.
Qed.

(** ** Round trips through the editing state *)

Lemma mutateFirst_ids i f els :
  (forall el, El.id (f el) = El.id el) ->
  map El.id (mutateFirst i f els) = map El.id els.
Proof.
  intros Hf. induction els as [|el els IH]; simpl; [done|].
  case_bool_decide; simpl; [by rewrite Hf | by rewrite IH].
Qed.

Lemma startEditingText_textElements (screenWidth screenHeight : Q) s p i el :
  findById i (textElements s) = Some el ->
  textElements (startEditingText screenWidth screenHeight s i p)
  = mutateFirst i (moveIntoView screenWidth screenHeight) (textElements p).
Proof.
  intros Hf. unfold startEditingText, moveTextIntoViewForEditing. by rewrite Hf.
Qed.

Lemma getCurrentTextElement_selected s el :
  findById (selectedTextId s) (textElements s) = Some el ->
  getCurrentTextElement s = Some el.
Proof. intros Hf. unfold getCurrentTextElement. by rewrite Hf. Qed.

(** X12. Entering the editing of an element by a tap that hits it and
    leaving by the next tap, without typing, leaves its text and its font
    size as they were when the text is not blank: the store afterwards
    holds the element as the relocation left it, the ids are those of
    before, the buffer is empty and the editing flag down. *)
Theorem enter_then_leave_keeps_text
    (screenWidth screenHeight : Q) (ev ev' : TapEvent) (s : State) (el : TextElement) :
  isEditingText s = false ->
  findElementAtPosition s (locationX ev) (locationY ev) = Some el ->
  findById (El.id el) (textElements s) = Some el ->
  blank (El.content el) = false ->
  let s1 := handleCanvasTap screenWidth screenHeight ev s in
  let s2 := handleCanvasTap screenWidth screenHeight ev' s1 in
  isEditingText s1 = true /\ selectedTextId s1 = El.id el
  /\ localTextContent s1 !! El.id el = Some (El.content el)
  /\ currentFontSize s1 = El.fontSize el
  /\ isEditingText s2 = false /\ localTextContent s2 = ∅
  /\ findById (El.id el) (textElements s2)
     = Some (moveIntoView screenWidth screenHeight el)
  /\ map El.id (textElements s2) = map El.id (textElements s).
Proof.
  intros Hview Hhit Hfind Hnb s1 s2.
  assert (Hs1 : s1 = startEditingText screenWidth screenHeight s (El.id el)
                       (setSelectedTextId (El.id el) s)).
  { subst s1. unfold handleCanvasTap. by rewrite Hview, Hhit. }
  destruct (startEditingText_existing screenWidth screenHeight s
              (setSelectedTextId (El.id el) s) (El.id el) el Hfind eq_refl)
    as (Hf1 & He1 & Hsel1 & Hl1 & Hfs1).
  rewrite <- Hs1 in Hf1, He1, Hsel1, Hl1, Hfs1.
  assert (Hbuf : localTextContent s1 !! El.id el = Some (El.content el)).
  { rewrite Hl1. apply lookup_insert_eq. }
  assert (Hcur : getCurrentTextElement s1
                 = Some (moveIntoView screenWidth screenHeight el)).
  { apply getCurrentTextElement_selected. by rewrite Hsel1. }
  assert (Hkeep : removeIfBlank s1 = s1).
  { apply (removeIfBlank_nonblank s1 _ Hcur).
    unfold getDisplayText. simpl. by rewrite Hbuf. }
  assert (Hs2 : s2 = stopEditingText s1 s1).
  { subst s2. unfold handleCanvasTap. by rewrite He1, Hkeep. }
  destruct (stopEditingText_flags s1 s1) as (Hl2 & He2 & _).
  rewrite <- Hs2 in Hl2, He2.
  split_and!; try done.
  - rewrite Hs2, stopEditingText_textElements.
    rewrite findById_map by apply commitWith_id.
    rewrite Hf1. simpl. f_equal. unfold commitWith. simpl.
    rewrite Hbuf, Hfs1. by destruct el.
  - rewrite Hs2, stopEditingText_textElements, map_map.
    rewrite (map_ext _ El.id) by apply commitWith_id.
    rewrite Hs1, (startEditingText_textElements _ _ _ _ _ el) by done.
    by apply mutateFirst_ids.
Qed.

Lemma head_filter {A} (f : A -> bool) (l : list A) :
  head (List.filter f l) = List.find f l.
Proof.
  induction l as [|a l IH]; simpl; [done|]. by destruct (f a).
Qed.

Lemma filter_none {A} (f : A -> bool) (l : list A) :
  Forall (fun a => f a = false) l -> List.filter f l = [].
Proof.
  induction 1 as [|a l Ha _ IH]; simpl; [done|]. by rewrite Ha.
Qed.

(** X13. The long-press deletion keeps the selection meaningful: a
    selection on another element stays; a selection on the deleted id
    moves to the first element that is left, which then heads the store;
    and when every element carries the deleted id, the store is emptied
    and the selection reset, more than one element or not. *)
Theorem delete_moves_selection (i : string) (s : State) :
  (1 < length (textElements s))%nat ->
  let s' := deleteTextElement i s in
  (selectedTextId s <> i -> selectedTextId s' = selectedTextId s)
  /\ (forall el, selectedTextId s = i ->
        List.find (fun e => negb (bool_decide (El.id e = i))) (textElements s) = Some el ->
        selectedTextId s' = El.id el /\ head (textElements s') = Some el)
  /\ (selectedTextId s = i -> Forall (fun e => El.id e = i) (textElements s) ->
      selectedTextId s' = "" /\ textElements s' = []).
Proof.
  intros Hlen s'. subst s'. unfold deleteTextElement.
  apply Nat.ltb_lt in Hlen. rewrite Hlen. split_and!.
  - intros Hne. by rewrite bool_decide_eq_false_2.
  - intros el Hsel Hfind. rewrite bool_decide_eq_true_2 by done. simpl.
    by rewrite Hfind, head_filter.
  - intros Hsel Hall. rewrite bool_decide_eq_true_2 by done. simpl.
    assert (Hnone : List.filter (fun e => negb (bool_decide (El.id e = i)))
                      (textElements s) = []).
    { apply filter_none. eapply Forall_impl; [exact Hall|].
      intros e He. simpl. by rewrite bool_decide_eq_true_2. }
    by rewrite <- head_filter, Hnone.
Qed.

(** ** Creation *)

Lemma findById_app_fresh i els el :
  findById i els = None -> El.id el = i -> findById i (els ++ [el]) = Some el.
Proof.
  unfold findById. intros Hnone Hid. induction els as [|e els IH]; simpl in *.
  - by rewrite bool_decide_eq_true_2.
  - destruct (bool_decide (El.id e = i)); [done | by apply IH].
Qed.

(** X14. The Text button appends one element with the default style at
    the anchor and starts its editing, the others staying as they are;
    for a fresh id neither the buffer nor the editing font size is
    initialised, so the text typed next is committed with the font size
    the last editing left, and leaving without typing takes the element
    out again. *)
Theorem createNewTextElement_appends
    (screenWidth screenHeight : Q) (newId t : string) (ev : TapEvent) (s : State) :
  findById newId (textElements s) = None ->
  localTextContent s = ∅ ->
  let new := newTextElement newId (screenWidth / 2) (screenHeight * (3 # 10)) in
  let s1 := createNewTextElement screenWidth screenHeight newId s in
  textElements s1 = (textElements s ++ [new])%list
  /\ isEditingText s1 = true /\ selectedTextId s1 = newId
  /\ getCurrentTextElement s1 = Some new
  /\ localTextContent s1 = ∅
  /\ currentFontSize s1 = currentFontSize s
  /\ textElements (handleCanvasTap screenWidth screenHeight ev s1) = textElements s
  /\ (blank t = false ->
      textElements (handleCanvasTap screenWidth screenHeight ev
                      (handleTextInputChange newId t s1))
      = (textElements s
         ++ [spread new (contentAndFontSize t (currentFontSize s))])%list).
Proof.
  intros Hfresh Hbuf new s1.
  assert (Hs1 : s1 = setShowControlBar true (setScreenDarkened true (setIsEditingText true
                  (setSelectedTextId newId (setSelectedTextId newId
                     (setTextElements (fun prev => (prev ++ [new])%list) s)))))).
  { subst s1. unfold createNewTextElement, startEditingText, moveTextIntoViewForEditing.
    by rewrite Hfresh. }
  assert (Hels : textElements s1 = (textElements s ++ [new])%list) by by rewrite Hs1.
  assert (Hcur : forall m, getCurrentTextElement (setLocalTextContent m s1) = Some new).
  { intros m. apply getCurrentTextElement_selected. rewrite Hs1. simpl.
    by apply findById_app_fresh. }
  assert (Hold : Forall (fun e : TextElement => El.id e <> newId) (textElements s)).
  { by apply findById_None. }
  assert (Hfilter : List.filter (fun e => negb (bool_decide (El.id e = El.id new)))
                      (textElements s ++ [new]) = textElements s).
  { rewrite List.filter_app. simpl. rewrite bool_decide_eq_true_2 by done. simpl.
    rewrite app_nil_r. apply filter_all.
    eapply Forall_impl; [exact Hold|]. intros e He. simpl.
    by rewrite bool_decide_eq_false_2. }
  assert (Hl1 : localTextContent s1 = ∅) by by rewrite Hs1.
  assert (He1 : isEditingText s1 = true) by by rewrite Hs1.
  assert (Hfs1 : currentFontSize s1 = currentFontSize s) by by rewrite Hs1.
  assert (Hcur1 : getCurrentTextElement s1 = Some new) by apply (Hcur (fun m => m)).
  split_and!; try done.
  - by rewrite Hs1.
  - unfold handleCanvasTap. rewrite He1, stopEditingText_textElements.
    destruct (removeIfBlank_blank s1 new Hcur1) as [-> _].
    { unfold getDisplayText. by rewrite Hl1, lookup_empty. }
    rewrite Hels, Hfilter, Hl1.
    rewrite (map_ext _ (fun e => e)) by apply commitWith_empty. apply map_id.
  - intros Hnb. unfold handleCanvasTap.
    set (s2 := handleTextInputChange newId t s1).
    assert (Hl2 : localTextContent s2 = {[newId := t]}).
    { subst s2. unfold handleTextInputChange. simpl. by rewrite Hl1. }
    assert (He2 : isEditingText s2 = true) by done.
    assert (Hels2 : textElements s2 = (textElements s ++ [new])%list) by done.
    assert (Hfs2 : currentFontSize s2 = currentFontSize s) by done.
    rewrite He2, stopEditingText_textElements.
    rewrite (removeIfBlank_nonblank s2 new).
    + rewrite Hels2, Hfs2, map_app, Hl2. simpl. f_equal.
      * rewrite (map_ext_Forall _ (fun e => e)); [apply map_id|].
        eapply Forall_impl; [exact Hold|]. intros e He. simpl.
        unfold commitWith. by rewrite lookup_singleton_ne.
      * unfold commitWith. by rewrite lookup_singleton_eq.
    + apply (Hcur (fun m => <[newId := t]> m)).
    + unfold getDisplayText. by rewrite Hl2, lookup_singleton_eq.
Qed.

(** ** The payload *)

(** X15. The payload has one record per element of the store, in
    creation order and with the position, colour and font of the element
    copied as they are, also for the elements whose text is blank, which
    the aggregate text leaves out. *)
Theorem payload_mirrors_the_store
    (screenWidth screenHeight : Q) (rd : option RepostData) (s : State) :
  let pd := postData screenWidth screenHeight rd s in
  length (text_elements pd) = length (textElements s)
  /\ (forall k el, textElements s !! k = Some el ->
        exists r, text_elements pd !! k = Some r
                  /\ Out.content r = getDisplayText s el
                  /\ Out.x r = El.x el /\ Out.y r = El.y el
                  /\ Out.color r = El.color el
                  /\ Out.fontFamily r = El.fontFamily el)
  /\ text_content pd
     = join " " (List.filter (fun t => negb (blank t))
                   (map (getDisplayText s) (textElements s))).
Proof.
  simpl. unfold currentElements. split_and!.
  - by rewrite !length_map.
  - intros k el Hk. eexists. rewrite !list_lookup_fmap, Hk. simpl.
    by split_and!.
  - apply allText_spec.
Qed.

(** X16. When the submission reaches the backend the store is not empty,
    and the legacy single-style fields are those of its first element,
    whether or not that element has any text: its font, its colour unless
    empty, and its rounded scaled font size unless one factor is zero. *)
Theorem legacy_fields_from_first_element
    (screenWidth screenHeight : Q) (rd : option RepostData) (s : State) (pd : PostCreate) :
  (handlePost screenWidth screenHeight rd s).2 = [ApiPost pd] ->
  exists el els,
    textElements s = el :: els
    /\ pd = postData screenWidth screenHeight rd s
    /\ font_choice pd = El.fontFamily el
    /\ (El.color el <> "" -> text_color pd = El.color el)
    /\ (~ (El.fontSize el == 0)%Q -> ~ (El.scale el == 0)%Q ->
        font_size pd = Math_round (El.fontSize el * El.scale el)).
Proof.
  unfold handlePost. fold (blank (allText s)).
  destruct (blank (allText s)) eqn:Hb; simpl; [done|].
  destruct (_ <? _)%nat; simpl; [done|]. intros [= <-].
  destruct (textElements s) as [|el els] eqn:Hels.
  { exfalso. unfold allText, currentElements in Hb. rewrite Hels in Hb. done. }
  exists el, els. unfold postData, currentElements. rewrite Hels. simpl.
  split_and!; try done.
  - intros Hc. destruct (El.color el); done.
  - intros Hf Hsc. by rewrite !orNumber_nonzero.
Qed.

(** X28. Leaving the editing state by a tap changes nothing of an
    element but its text and its font size: every element of the store
    afterwards is an element of the store before with the same id,
    position, recorded original position, scale, colour, font, background
    mode and caps lock, and no element is added. *)
Theorem leaving_editing_changes_text_and_size_only
    (screenWidth screenHeight : Q) (event : TapEvent) (s : State) (el' : TextElement) :
  isEditingText s = true ->
  el' ∈ textElements (handleCanvasTap screenWidth screenHeight event s) ->
  exists el, el ∈ textElements s
    /\ el' = spread el (contentAndFontSize (El.content el') (El.fontSize el'))
    /\ El.id el' = El.id el
    /\ El.x el' = El.x el /\ El.y el' = El.y el
    /\ El.originalX el' = El.originalX el /\ El.originalY el' = El.originalY el
    /\ El.scale el' = El.scale el.
Proof.
  intros Hedit. unfold handleCanvasTap. rewrite Hedit.
  rewrite stopEditingText_textElements.
  intros (el & -> & Hin)%list_elem_of_fmap.
  assert (Hel : el ∈ textElements s).
  { revert Hin. unfold removeIfBlank.
    destruct (getCurrentTextElement s); [|done].
    destruct (truthy _); [done|]. simpl.
    rewrite !list_elem_of_In, filter_In. tauto. }
  exists el. unfold commitWith.
  destruct (localTextContent s !! El.id el); simpl; [by split_and! |].
  split_and!; try done. by destruct el.
Qed.

(** * The repost image, the post card, the feed and the socket *)

(** ** Candidate uris *)

Lemma trimEnd_cons c t :
  isWhiteSpace c = false -> trimEnd (String c t) = String c (trimEnd t).
Proof. intros Hc. simpl. rewrite Hc. by destruct (trimEnd t). Qed.

Lemma trimEnd_unfold c t :
  trimEnd (String c t)
  = match trimEnd t with
    | EmptyString => if isWhiteSpace c then EmptyString else String c EmptyString
    | String d r => String c (String d r)
    end.
Proof. reflexivity. Qed.

Lemma trimEnd_idempotent t : trimEnd (trimEnd t) = trimEnd t.
Proof.
  induction t as [|c t IH]; [done|].
  rewrite (trimEnd_unfold c t).
  destruct (trimEnd t) as [|d r] eqn:Hr.
  - destruct (isWhiteSpace c) eqn:Hc; [done|]. simpl. by rewrite Hc.
  - by rewrite trimEnd_unfold, IH.
Qed.

Lemma startsClean_trimStart t : startsClean (trimStart t) = true.
Proof.
  induction t as [|c t IH]; simpl; [done|].
  destruct (isWhiteSpace c) eqn:Hc; simpl; [done | by rewrite Hc].
Qed.

Lemma startsClean_trimEnd t : startsClean t = true -> startsClean (trimEnd t) = true.
Proof.
  destruct t as [|c t]; [done|]. simpl. intros Hc.
  apply negb_true_iff in Hc. rewrite Hc.
  destruct (trimEnd t); simpl; by rewrite Hc.
Qed.

Lemma trimStart_clean t : startsClean t = true -> trimStart t = t.
Proof.
  destruct t as [|c t]; simpl; [done|]. by intros ->%negb_true_iff.
Qed.

Lemma trim_idempotent t : trim (trim t) = trim t.
Proof.
  unfold trim.
  rewrite (trimStart_clean (trimEnd (trimStart t))).
  - apply trimEnd_idempotent.
  - apply startsClean_trimEnd, startsClean_trimStart.
Qed.

Lemma hasScheme_not_white c t : isWhiteSpace c = true -> hasScheme (String c t) = false.
Proof.
  destruct c as [[] [] [] [] [] [] [] []]; try discriminate; reflexivity.
Qed.

Lemma hasScheme_clean u :
  hasScheme u = true -> truthy u = true /\ startsClean u = true.
Proof.
  destruct u as [|c u]; [done|]. intros Hs. split; [done|]. simpl.
  destruct (isWhiteSpace c) eqn:Hc; [|done].
  by rewrite hasScheme_not_white in Hs.
Qed.

Lemma truthy_false t : truthy t = false <-> t = "".
Proof. by destruct t. Qed.

Lemma withScheme_has_scheme t :
  hasScheme (if negb (hasScheme t) then "file://" ++ t else t) = true.
Proof. by destruct (hasScheme t) eqn:Hs. Qed.

Lemma length_append a b :
  String.length (a ++ b) = (String.length a + String.length b)%nat.
Proof.
  induction a as [|c a IH]; [done|].
  change (String c a ++ b) with (String c (a ++ b)). simpl. by rewrite IH.
Qed.

Lemma startsWithIgnoreCase_length p u :
  startsWithIgnoreCase p u = true -> (String.length p <= String.length u)%nat.
Proof.
  revert u. induction p as [|a p IH]; intros u; simpl; [lia|].
  destruct u as [|b u]; [done|]. intros [_ Hp]%andb_true_iff.
  simpl. apply IH in Hp. lia.
Qed.

Lemma length_dropChars n u :
  String.length (dropChars n u) = (String.length u - n)%nat.
Proof.
  revert u. induction n as [|n IH]; intros u; simpl; [lia|].
  destruct u as [|c u]; simpl; [done | apply IH].
Qed.

Lemma private_variant_differs u :
  startsWithIgnoreCase "file:///private/" u = true ->
  "file:///" ++ dropChars 16 u <> u.
Proof.
  intros Hp Heq. apply (f_equal String.length) in Heq.
  apply startsWithIgnoreCase_length in Hp.
  rewrite length_append, length_dropChars in Heq. simpl in Hp, Heq. lia.
Qed.

Lemma buildImageCandidates_some isIOS r :
  truthy r = true ->
  let u := if hasScheme (trim r) then trim r else "file://" ++ trim r in
  buildImageCandidates isIOS (Some r)
  = if isIOS && startsWithIgnoreCase "file:///private/" u
    then [u; "file:///" ++ dropChars 16 u] else [u].
Proof.
  intros Ht u. unfold buildImageCandidates. rewrite Ht. cbn [negb].
  replace (if negb (hasScheme (trim r)) then "file://" ++ trim r else trim r)
    with u by (subst u; by destruct (hasScheme (trim r))).
  destruct isIOS; cbn [andb]; [|done].
  destruct (startsWithIgnoreCase "file:///private/" u) eqn:Hp.
  - rewrite bool_decide_eq_true_2; [done|]. by apply private_variant_differs.
  - by rewrite bool_decide_eq_false_2 by (intros H; by apply H).
Qed.

(** X17. [buildImageCandidates] gives no candidate for a missing or
    empty uri, and otherwise one or two, the first being the trimmed uri
    and carrying one of the known schemes, [file://] being put in front
    of a uri without one (of a blank uri too).  Off iOS there is no other
    candidate; on iOS there is a second one exactly when the first begins
    with [file:///private/], namely the first with [/private] taken out,
    and it differs from the first. *)
Theorem buildImageCandidates_shape (isIOS : bool) (raw : option string) :
  (raw = None \/ raw = Some "" -> buildImageCandidates isIOS raw = [])
  /\ (forall r, raw = Some r -> r <> "" ->
        let u := if hasScheme (trim r) then trim r else "file://" ++ trim r in
        let variant := "file:///" ++ dropChars 16 u in
        hasScheme u = true
        /\ (blank r = true -> u = "file://")
        /\ buildImageCandidates isIOS raw
           = (if isIOS && startsWithIgnoreCase "file:///private/" u
              then [u; variant] else [u])
        /\ (startsWithIgnoreCase "file:///private/" u = true ->
            variant <> u /\ hasScheme variant = true)).
Proof.
  split.
  - by intros [-> | ->].
  - intros r -> Hr u variant. split_and!.
    + subst u. by destruct (hasScheme (trim r)) eqn:Hs.
    + unfold blank. intros Hb%negb_true_iff%truthy_false. subst u. by rewrite Hb.
    + apply buildImageCandidates_some. by destruct r.
    + intros Hp. split; [by apply private_variant_differs | done].
Qed.

(** X18. The first candidate is a fixed point: handing it back to
    [buildImageCandidates] yields the same candidates again. *)
Theorem buildImageCandidates_stable (isIOS : bool) (r u : string) (rest : list string) :
  buildImageCandidates isIOS (Some r) = u :: rest ->
  buildImageCandidates isIOS (Some u) = u :: rest.
Proof.
  intros Hc.
  assert (Hr : truthy r = true).
  { destruct r; [by simpl in Hc | done]. }
  pose proof (buildImageCandidates_some isIOS r Hr) as Hr0. cbv zeta in Hr0.
  set (u0 := if hasScheme (trim r) then trim r else "file://" ++ trim r) in Hr0.
  assert (Hs0 : hasScheme u0 = true).
  { subst u0. by destruct (hasScheme (trim r)) eqn:Hs. }
  assert (Htrim : trim u0 = u0).
  { subst u0. destruct (hasScheme (trim r)).
    - apply trim_idempotent.
    - unfold trim at 1. change (trimStart ("file://" ++ trim r)) with ("file://" ++ trim r).
      change ("file://" ++ trim r)
        with (String "f" (String "i" (String "l" (String "e" (String ":"
               (String "/" (String "/" (trim r)))))))).
      rewrite !trimEnd_cons by done. unfold trim. by rewrite trimEnd_idempotent. }
  assert (Hu0 : buildImageCandidates isIOS (Some u0) = buildImageCandidates isIOS (Some r)).
  { rewrite Hr0, buildImageCandidates_some by (by apply hasScheme_clean).
    cbv zeta. by rewrite Htrim, Hs0. }
  assert (Hu : u = u0).
  { rewrite Hr0 in Hc. destruct (_ && _); by injection Hc. }
  by rewrite Hu, Hu0, <- Hu.
Qed.

(** ** Reposts and the age of a post *)

Lemma handlePost_sends (screenWidth screenHeight : Q) rd s pd :
  (handlePost screenWidth screenHeight rd s).2 = [ApiPost pd] ->
  pd = postData screenWidth screenHeight rd s.
Proof.
  unfold handlePost. destruct (negb _); simpl; [done|].
  destruct (_ <? _)%nat; simpl; [done|]. by intros [= <-].
Qed.

(** X19. A post without a rendered image, or with an empty url, cannot
    be reposted: the card shows an alert and opens nothing.  Otherwise the
    composer is opened on the post and its image, and every payload it
    then sends names the post as [original_post_id] and the image as
    [screenshot_uri], with the identity as geometry wherever the texts
    stand; a composer opened without a post sends no repost block. *)
Theorem repost_reaches_the_payload (post : Post) :
  (Post.rendered_image_url post = None \/ Post.rendered_image_url post = Some "" ->
   routeRepostData (handleRepost post) = None
   /\ handleRepost post
      = RepostRefused "Error" "This post cannot be reposted (no image available)")
  /\ (forall uri, Post.rendered_image_url post = Some uri -> uri <> "" ->
        handleRepost post = NavigateToComposer post uri
        /\ forall screenWidth screenHeight s pd,
             (handlePost screenWidth screenHeight
                (routeRepostData (handleRepost post)) s).2 = [ApiPost pd] ->
             repost_data pd
             = Some (mkRepostPayload (Post.id post) uri (mkGeometry 0 0 1)))
  /\ (forall screenWidth screenHeight s pd,
        (handlePost screenWidth screenHeight None s).2 = [ApiPost pd] ->
        repost_data pd = None).
Proof.
  split_and!.
  - unfold handleRepost. by intros [-> | ->].
  - intros uri Huri Hne.
    assert (Hr : handleRepost post = NavigateToComposer post uri).
    { unfold handleRepost. rewrite Huri. by destruct uri. }
    split; [done|]. intros W H s pd Hsend.
    apply handlePost_sends in Hsend. rewrite Hsend, Hr. done.
  - intros W H s pd Hsend. apply handlePost_sends in Hsend. by rewrite Hsend.
Qed.

(** X20. The age shown on a card, from the difference [now - date] in
    milliseconds: "now" below one minute, also for a date in the future;
    whole minutes from 1 to 59 below one hour; whole hours from 1 to 23
    below one day; whole days from then on, without a larger unit; and a
    string that is no date gives "NaNd". *)
Theorem formatTimeAgo_ranges (now d : Z) :
  let diff := (now - d)%Z in
  let shown := formatTimeAgo now (Some d) in
  ((diff < 60000)%Z -> shown = "now")
  /\ ((60000 <= diff < 3600000)%Z ->
      shown = pretty (diff / 60000)%Z ++ "m" /\ (1 <= diff / 60000 <= 59)%Z)
  /\ ((3600000 <= diff < 86400000)%Z ->
      shown = pretty (diff / 3600000)%Z ++ "h" /\ (1 <= diff / 3600000 <= 23)%Z)
  /\ ((86400000 <= diff)%Z ->
      shown = pretty (diff / 86400000)%Z ++ "d" /\ (1 <= diff / 86400000)%Z)
  /\ formatTimeAgo now None = "NaNd".
Proof.
  intros diff shown. subst shown. unfold formatTimeAgo. fold diff.
  change (1000 * 60)%Z with 60000%Z.
  change (60000 * 60)%Z with 3600000%Z.
  change (3600000 * 24)%Z with 86400000%Z.
  generalize diff. clear. intros diff.
  split_and!; [| | | |done].
  - intros Hd. destruct (Z.ltb_spec (diff / 60000) 1) as [_|Hm]; [done|].
    exfalso. revert Hm. Z.div_mod_to_equations. lia.
  - intros Hd.
    assert (Hm : (1 <= diff / 60000 <= 59)%Z) by (Z.div_mod_to_equations; lia).
    destruct (Z.ltb_spec (diff / 60000) 1); [lia|].
    destruct (Z.ltb_spec (diff / 60000) 60); [done | lia].
  - intros Hd.
    assert (Hm : (60 <= diff / 60000)%Z) by (Z.div_mod_to_equations; lia).
    assert (Hh : (1 <= diff / 3600000 <= 23)%Z) by (Z.div_mod_to_equations; lia).
    destruct (Z.ltb_spec (diff / 60000) 1); [lia|].
    destruct (Z.ltb_spec (diff / 60000) 60); [lia|].
    destruct (Z.ltb_spec (diff / 3600000) 24); [done | lia].
  - intros Hd.
    assert (Hm : (60 <= diff / 60000)%Z) by (Z.div_mod_to_equations; lia).
    assert (Hh : (24 <= diff / 3600000)%Z) by (Z.div_mod_to_equations; lia).
    assert (Hdays : (1 <= diff / 86400000)%Z) by (Z.div_mod_to_equations; lia).
    destruct (Z.ltb_spec (diff / 60000) 1); [lia|].
    destruct (Z.ltb_spec (diff / 60000) 60); [lia|].
    destruct (Z.ltb_spec (diff / 3600000) 24); [lia | done].
Qed.

(** ** The feed *)

Lemma NoDup_ids_filter (f : Post -> bool) (l : list Post) :
  NoDup (map Post.id l) -> NoDup (map Post.id (List.filter f l)).
Proof.
  induction l as [|p l IH]; simpl; [done|].
  intros [Hp Hl]%NoDup_cons. destruct (f p); simpl; [|by apply IH].
  apply NoDup_cons. split; [|by apply IH].
  intros (q & Hq & Hin)%list_elem_of_fmap. apply Hp.
  apply list_elem_of_fmap. exists q. split; [done|].
  apply list_elem_of_In, filter_In in Hin as [Hin _]. by apply list_elem_of_In.
Qed.

(** X21. Loading one more page keeps the posts already shown, in place,
    and appends the posts of the page whose id is not shown yet, in the
    order of the page: every post of the page is then in the feed, no id
    is doubled when none was doubled in the feed or in the page, and the
    same page arriving again adds nothing.  A refresh or a first load
    replaces the posts by the page. *)
Theorem load_more_merges_without_duplicates
    (c : string) (results prev : list Post) :
  c <> "" ->
  let merged := Feed.loadedPosts false (Some c) results prev in
  merged
  = (prev ++ List.filter
       (fun p => negb (bool_decide (Post.id p ∈ map Post.id prev))) results)%list
  /\ (forall p, p ∈ results -> Post.id p ∈ map Post.id merged)
  /\ (NoDup (map Post.id prev) -> NoDup (map Post.id results) ->
      NoDup (map Post.id merged))
  /\ Feed.loadedPosts false (Some c) results merged = merged
  /\ Feed.loadedPosts true (Some c) results prev = results
  /\ Feed.loadedPosts false None results prev = results.
Proof.
  intros Hc merged.
  assert (Hm : merged
    = (prev ++ List.filter
         (fun p => negb (bool_decide (Post.id p ∈ map Post.id prev))) results)%list).
  { subst merged. unfold Feed.loadedPosts. simpl. by destruct c. }
  assert (Hall : forall p, p ∈ results -> Post.id p ∈ map Post.id merged).
  { intros p Hp. rewrite Hm, map_app, elem_of_app.
    destruct (decide (Post.id p ∈ map Post.id prev)) as [Hin|Hout]; [by left|].
    right. apply list_elem_of_fmap. exists p. split; [done|].
    apply list_elem_of_In, filter_In. split; [by apply list_elem_of_In|].
    by rewrite bool_decide_eq_false_2. }
  split_and!; [done | done | | | done | done].
  - intros Hprev Hres. rewrite Hm, map_app. apply NoDup_app. split_and!.
    + done.
    + intros i Hi (q & -> & Hq)%list_elem_of_fmap.
      apply list_elem_of_In, filter_In in Hq as [_ Hq].
      by apply negb_true_iff, bool_decide_eq_false in Hq.
    + by apply NoDup_ids_filter.
  - unfold Feed.loadedPosts at 1. simpl.
    replace (truthy c) with true by (by destruct c).
    rewrite filter_none; [apply app_nil_r|].
    apply Forall_forall. intros p Hp.
    by rewrite negb_false_iff, bool_decide_eq_true_2 by by apply Hall.
Qed.

Lemma find_by_id_None (i : string) (l : list Post) :
  List.find (fun p => bool_decide (Post.id p = i)) l = None <-> i ∉ map Post.id l.
Proof.
  rewrite find_none_Forall, Forall_forall. split.
  - intros H (p & -> & Hp)%list_elem_of_fmap.
    specialize (H p Hp). by rewrite bool_decide_eq_true_2 in H.
  - intros H p Hp. apply bool_decide_eq_false. intros Hid. apply H.
    apply list_elem_of_fmap. by exists p.
Qed.

(** X22. A newly created post is put at the head of the feed unless a
    post with its id is already shown, in which case the feed, with the
    post it already has, stays as it is: the id is in the feed
    afterwards, no id gets doubled, and showing the same post again
    changes nothing. *)
Theorem addNewPost_once (newPost : Post) (prev : list Post) :
  let shown := Feed.addNewPost newPost prev in
  (Post.id newPost ∈ map Post.id prev -> shown = prev)
  /\ (Post.id newPost ∉ map Post.id prev -> shown = newPost :: prev)
  /\ Post.id newPost ∈ map Post.id shown
  /\ (NoDup (map Post.id prev) -> NoDup (map Post.id shown))
  /\ Feed.addNewPost newPost shown = shown.
Proof.
  intros shown. subst shown. unfold Feed.addNewPost.
  destruct (List.find _ prev) as [q|] eqn:Hfind.
  - assert (Hin : Post.id newPost ∈ map Post.id prev).
    { apply find_some in Hfind as [Hq Hid]. apply bool_decide_eq_true in Hid.
      rewrite <- Hid. apply list_elem_of_fmap. exists q.
      split; [done | by apply list_elem_of_In]. }
    split_and!; try done. by rewrite Hfind.
  - assert (Hout : Post.id newPost ∉ map Post.id prev) by by apply find_by_id_None.
    split_and!; try done.
    + simpl. apply list_elem_of_here.
    + intros Hnd. simpl. by apply NoDup_cons.
    + simpl. by rewrite bool_decide_eq_true_2.
Qed.

(** X23. Muting from a post: no request is sent for a post that is not
    in the feed; for one that is, the request names its author, and once
    the backend has accepted it every post of that author is taken out of
    the feed of the moment, the post itself included, the posts of other
    authors staying in their order. *)
Theorem mute_removes_the_author (postId : string) (s : Feed.State) :
  (Feed.muteTarget postId s = None -> Feed.muteRequest postId s = [])
  /\ (forall post, Feed.muteTarget postId s = Some post ->
        post ∈ Feed.posts s /\ Post.id post = postId
        /\ Feed.muteRequest postId s = [Feed.MuteUser (Post.handle post)]
        /\ forall later,
             let after := Feed.posts (Feed.muteDone post later).1 in
             after = List.filter
                       (fun p => negb (bool_decide (Post.handle p = Post.handle post)))
                       (Feed.posts later)
             /\ (forall p, p ∈ after <->
                   p ∈ Feed.posts later /\ Post.handle p <> Post.handle post)
             /\ post ∉ after).
Proof.
  split.
  - intros Hnone. unfold Feed.muteRequest. by rewrite Hnone.
  - intros post Hfind.
    assert (Hpost : post ∈ Feed.posts s /\ Post.id post = postId).
    { unfold Feed.muteTarget in Hfind. apply find_some in Hfind as [Hin Hid].
      split; [by apply list_elem_of_In | by apply bool_decide_eq_true in Hid]. }
    destruct Hpost as [Hin Hid].
    split_and!; [done | done | by unfold Feed.muteRequest; rewrite Hfind |].
    intros later after. subst after. simpl.
    assert (Hiff : forall p,
      p ∈ List.filter (fun p => negb (bool_decide (Post.handle p = Post.handle post)))
            (Feed.posts later)
      <-> p ∈ Feed.posts later /\ Post.handle p <> Post.handle post).
    { intros p. rewrite !list_elem_of_In, filter_In, negb_true_iff.
      by rewrite bool_decide_eq_false. }
    split_and!; [done | done |].
    intros [_ Hne]%Hiff. done.
Qed.

(** X24. Loading more is single-flight: nothing is asked for when there
    is no next url or a load is under way; otherwise the flag goes up
    and the page of the cursor is asked for, and until an answer clears
    the flag every further call does nothing.  When the next url carries
    no cursor the flag goes up as well but nothing is asked for, so no
    answer will clear it: loading more is then off until a refresh
    completes. *)
Theorem load_more_is_single_flight
    (searchCursor : string -> option string) (s : Feed.State) :
  let s' := (Feed.handleLoadMore searchCursor s).1 in
  let asked := (Feed.handleLoadMore searchCursor s).2 in
  (Feed.present (Feed.nextUrl s) = false \/ Feed.loadingMore s = true ->
   s' = s /\ asked = [])
  /\ (forall url, Feed.nextUrl s = Some url -> url <> "" -> Feed.loadingMore s = false ->
        Feed.loadingMore s' = true /\ Feed.posts s' = Feed.posts s
        /\ Feed.handleLoadMore searchCursor s' = (s', [])
        /\ (Feed.present (searchCursor url) = true ->
            asked = [Feed.FetchFeed false (searchCursor url)])
        /\ (Feed.present (searchCursor url) = false -> asked = []))
  /\ (forall isRefresh cursor response,
        Feed.loadingMore (Feed.fetchFeedDone isRefresh cursor response s).1 = false).
Proof.
  intros s' asked. subst s' asked. unfold Feed.handleLoadMore. split_and!.
  - intros [Hno | Hbusy].
    + by rewrite Hno.
    + by rewrite Hbusy, andb_false_r.
  - intros url Hurl Hne Hidle. rewrite Hurl, Hidle. simpl.
    replace (truthy url) with true by (by destruct url). simpl.
    destruct (Feed.present (searchCursor url)) eqn:Hcur; simpl;
      rewrite ?andb_false_r; by split_and!.
  - intros isRefresh cursor response. by destruct response.
Qed.

(** ** The socket *)

Lemma inherited_false_slot event sv :
  WS.inherited event = false ->
  WS.slot event sv
  = match WS.eventHandlers sv !! event with
    | Some hs => WS.Handlers hs
    | None => WS.Undefined
    end.
Proof. intros Hi. unfold WS.slot. by rewrite Hi. Qed.

Lemma threw_calls m (hs : list WS.Handler) :
  WS.threw (map (fun h => WS.Call h m) hs) = false.
Proof. by induction hs. Qed.

Lemma emit_returns event m sv :
  WS.inherited event = false -> WS.threw (WS.emit event m sv) = false.
Proof.
  intros Hi. unfold WS.emit. rewrite inherited_false_slot by done.
  destruct (WS.eventHandlers sv !! event); [apply threw_calls | done].
Qed.

Lemma onclose_returns sv :
  WS.onclose sv
  = let sv1 := WS.mkService (WS.ws sv) false (WS.reconnectAttempts sv)
                 (WS.eventHandlers sv) in
    let '(sv2, out2) := WS.handleReconnect sv1 in
    (sv2, (WS.emit "disconnected" (WS.mkMessage WS.connection_established "") sv1
           ++ out2)%list).
Proof. unfold WS.onclose. cbv zeta. by rewrite emit_returns. Qed.

(** X25. The registry of handlers.  Under an event name that is not the
    name of a member of [Object.prototype], [on] and [off] return, a
    handler that is registered is called on the events of its name after
    the handlers registered before it, and unregistering takes out every
    registration of the handler under the name and no other handler.
    Neither touches the handlers of another name.  Under the name of an
    inherited member ([toString], [constructor], ...) the three methods
    throw a [TypeError] and the registry stays as it is; so no such
    name ever becomes a key of the registry. *)
Theorem handlers_are_called_in_order
    (event : string) (h : WS.Handler) (m : WS.Message) (sv : WS.Service) :
  (WS.inherited event = false ->
     (WS.on event h sv).2 = [] /\ (WS.off event h sv).2 = []
     /\ WS.emit event m (WS.on event h sv).1
        = (WS.emit event m sv ++ [WS.Call h m])%list
     /\ (WS.Call h m ∉ WS.emit event m (WS.off event h sv).1)
     /\ (forall h', h' <> h ->
           WS.Call h' m ∈ WS.emit event m sv ->
           WS.Call h' m ∈ WS.emit event m (WS.off event h sv).1)
     /\ WS.emit event m (WS.off event h (WS.on event h sv).1).1
        = WS.emit event m (WS.off event h sv).1
     /\ (WS.eventHandlers sv !! event = None -> WS.off event h sv = (sv, [])))
  /\ (forall other, other <> event ->
        WS.emit other m (WS.on event h sv).1 = WS.emit other m sv
        /\ WS.emit other m (WS.off event h sv).1 = WS.emit other m sv)
  /\ (WS.inherited event = true -> WS.eventHandlers sv !! event = None ->
      WS.on event h sv = (sv, [WS.ThrowTypeError])
      /\ WS.off event h sv = (sv, [WS.ThrowTypeError])
      /\ WS.emit event m sv = [WS.ThrowTypeError])
  /\ ((forall e, WS.inherited e = true -> WS.eventHandlers sv !! e = None) ->
      forall e, WS.inherited e = true ->
        WS.eventHandlers (WS.on event h sv).1 !! e = None
        /\ WS.eventHandlers (WS.off event h sv).1 !! e = None).
Proof.
  split_and!.
  - intros Hi. unfold WS.emit, WS.on, WS.off.
    rewrite !(inherited_false_slot event) by done.
    destruct (WS.eventHandlers sv !! event) as [hs|] eqn:He; simpl;
      rewrite ?lookup_insert_eq, ?He; simpl; rewrite ?lookup_insert_eq; simpl.
    + split_and!; try done.
      * by rewrite map_app.
      * intros (h0 & [= <-] & Hin)%list_elem_of_fmap.
        apply list_elem_of_In, filter_In in Hin as [_ Hne].
        by apply negb_true_iff, bool_decide_eq_false in Hne.
      * intros h' Hne (h0 & [= <-] & Hin)%list_elem_of_fmap.
        apply list_elem_of_fmap. exists h'. split; [done|].
        apply list_elem_of_In, filter_In. split; [by apply list_elem_of_In|].
        by rewrite bool_decide_eq_false_2.
      * rewrite List.filter_app. simpl.
        rewrite bool_decide_eq_true_2 by done. simpl. by rewrite app_nil_r.
    + split_and!; try done.
      * apply not_elem_of_nil.
      * by rewrite bool_decide_eq_true_2.
  - intros other Hne. unfold WS.emit, WS.on, WS.off, WS.slot.
    destruct (WS.eventHandlers sv !! event) as [hs|] eqn:He; simpl.
    + by rewrite !lookup_insert_ne.
    + destruct (WS.inherited event); simpl; [done|].
      by rewrite lookup_insert_ne.
  - intros Hi He. unfold WS.emit, WS.on, WS.off, WS.slot. by rewrite He, Hi.
  - intros Hplain e Hie. unfold WS.on, WS.off, WS.slot.
    destruct (WS.eventHandlers sv !! event) as [hs|] eqn:He; simpl.
    + assert (Hne : event <> e).
      { intros ->. by rewrite Hplain in He. }
      rewrite !lookup_insert_ne by done. split; by apply Hplain.
    + destruct (WS.inherited event) eqn:Hev; simpl.
      * split; by apply Hplain.
      * assert (Hne : event <> e) by (intros ->; congruence).
        rewrite lookup_insert_ne by done. split; by apply Hplain.
Qed.

Lemma handleReconnect_spec sv :
  let '(sv', out) := WS.handleReconnect sv in
  WS.eventHandlers sv' = WS.eventHandlers sv
  /\ WS.isConnected sv' = WS.isConnected sv
  /\ ((WS.reconnectAttempts sv < 5)%nat ->
      WS.reconnectAttempts sv' = S (WS.reconnectAttempts sv)
      /\ WS.delays out = [(1000 * S (WS.reconnectAttempts sv))%nat])
  /\ ((5 <= WS.reconnectAttempts sv)%nat ->
      sv' = sv /\ WS.delays out = []
      /\ out = WS.emit "max_reconnects_reached"
                 (WS.mkMessage WS.connection_established "") sv).
Proof.
  unfold WS.handleReconnect, WS.maxReconnectAttempts, WS.reconnectDelay.
  destruct (Nat.ltb_spec (WS.reconnectAttempts sv) 5) as [Hlt|Hge].
  - split_and!; [done | done | by intros _ | lia].
  - split_and!; [done | done | lia |]. intros _. split_and!; [done | | done].
    unfold WS.emit, WS.delays.
    destruct (WS.slot _ sv) as [hs| |]; [|done|done].
    induction hs as [|h hs IH]; [done | exact IH].
Qed.

Lemma delays_app out1 out2 : WS.delays (out1 ++ out2) = (WS.delays out1 ++ WS.delays out2)%list.
Proof. unfold WS.delays. apply omap_app. Qed.

Lemma delays_emit event m sv : WS.delays (WS.emit event m sv) = [].
Proof.
  unfold WS.emit, WS.delays. destruct (WS.slot event sv) as [hs| |]; [|done|done].
  induction hs as [|h hs IH]; [done | exact IH].
Qed.

Lemma closes_spec n : forall sv,
  (WS.reconnectAttempts sv <= 5)%nat ->
  let a := WS.reconnectAttempts sv in
  WS.reconnectAttempts (WS.closes n sv).1 = Nat.min (a + n) 5
  /\ WS.delays (WS.closes n sv).2
     = map (fun k => (1000 * k)%nat) (seq (S a) (Nat.min (a + n) 5 - a))
  /\ (WS.isConnected sv = false \/ (0 < n)%nat ->
      WS.isConnected (WS.closes n sv).1 = false).
Proof.
  induction n as [|n IH]; intros sv Ha a.
  - simpl. replace (Nat.min (a + 0) 5 - a)%nat with 0%nat by lia.
    split_and!; [lia | done |]. intros [H|H]; [done | lia].
  - simpl. rewrite onclose_returns. cbv zeta.
    set (sv1 := WS.mkService (WS.ws sv) false (WS.reconnectAttempts sv) (WS.eventHandlers sv)).
    pose proof (handleReconnect_spec sv1) as Hr.
    destruct (WS.handleReconnect sv1) as [sv2 out2].
    destruct Hr as (_ & Hconn & Hlt & Hge).
    change (WS.reconnectAttempts sv1) with a in Hlt, Hge.
    change (WS.isConnected sv1) with false in Hconn.
    assert (Ha2 : (WS.reconnectAttempts sv2 <= 5)%nat).
    { destruct (decide (a < 5)%nat) as [H|H].
      - destruct (Hlt H) as [-> _]. lia.
      - destruct Hge as [-> _]; [lia | done]. }
    destruct (IH sv2 Ha2) as (IH1 & IH2 & IH3).
    destruct (WS.closes n sv2) as [sv3 out3]. simpl in IH1, IH2, IH3 |- *.
    rewrite !delays_app, delays_emit. simpl.
    split_and!; [| |intros _; by apply IH3; left].
    + rewrite IH1. destruct (decide (a < 5)%nat) as [H|H].
      * destruct (Hlt H) as [-> _]. lia.
      * destruct Hge as [-> _]; [lia|]. simpl. fold a. lia.
    + rewrite IH2. destruct (decide (a < 5)%nat) as [H|H].
      * destruct (Hlt H) as [-> ->].
        replace (Nat.min (a + S n) 5 - a)%nat with (S (Nat.min (S a + n) 5 - S a)) by lia.
        done.
      * destruct Hge as (-> & -> & _); [lia|]. simpl. fold a.
        by replace (Nat.min (a + S n) 5 - a)%nat with (Nat.min (a + n) 5 - a)%nat by lia.
Qed.

Lemma sum_list_scale (c : nat) (l : list nat) :
  sum_list (map (fun k => (c * k)%nat) l) = (c * sum_list l)%nat.
Proof. induction l as [|k l IH]; simpl; [lia | rewrite IH; lia]. Qed.

(** X26. Reconnection backs off and gives up: starting from no failed
    attempt, the closes of a run schedule reconnections after 1000, 2000,
    ... milliseconds, five at most and 15 seconds of waiting in all; the
    count of attempts never passes five; from the fifth failure on a
    close schedules nothing and tells the handlers of
    [max_reconnects_reached] instead; and an open connection resets the
    count. *)
Theorem reconnection_backs_off (n : nat) (sv : WS.Service) :
  WS.reconnectAttempts sv = 0%nat ->
  let after := WS.closes n sv in
  WS.reconnectAttempts after.1 = Nat.min n 5
  /\ WS.delays after.2 = map (fun k => (1000 * k)%nat) (seq 1 (Nat.min n 5))
  /\ (sum_list (WS.delays after.2) <= 15 * 1000)%nat
  /\ ((5 <= n)%nat ->
      WS.delays (WS.onclose after.1).2 = []
      /\ forall h hs,
           WS.eventHandlers sv !! "max_reconnects_reached" = Some hs -> h ∈ hs ->
           WS.Call h (WS.mkMessage WS.connection_established "")
           ∈ (WS.onclose after.1).2)
  /\ WS.reconnectAttempts (WS.onopen after.1).1 = 0%nat
  /\ WS.isConnected (WS.onopen after.1).1 = true.
Proof.
  intros H0 after.
  destruct (closes_spec n sv) as (Hatt & Hdel & _); [lia|].
  cbv zeta in Hatt, Hdel. rewrite H0 in Hatt, Hdel.
  rewrite Nat.add_0_l in Hatt, Hdel. rewrite Nat.sub_0_r in Hdel.
  assert (Hhandlers : WS.eventHandlers (WS.closes n sv).1 = WS.eventHandlers sv).
  { clear. revert sv. induction n as [|n IH]; intros sv; [done|].
    simpl. rewrite onclose_returns. cbv zeta.
    set (sv1 := WS.mkService _ _ _ _).
    pose proof (handleReconnect_spec sv1) as Hr.
    destruct (WS.handleReconnect sv1) as [sv2 out2]. destruct Hr as (Hh & _).
    specialize (IH sv2). destruct (WS.closes n sv2) as [sv3 out3].
    simpl in *. by rewrite IH, Hh. }
  subst after. split_and!; [done | done | | | done | done].
  - rewrite Hdel, sum_list_scale.
    assert (Hsum : (sum_list (seq 1 (Nat.min n 5)) <= 15)%nat).
    { assert (Hk : (Nat.min n 5 <= 5)%nat) by lia.
      revert Hk. generalize (Nat.min n 5). intros k Hk.
      do 6 (destruct k as [|k]; [simpl; lia|]). lia. }
    revert Hsum. generalize (sum_list (seq 1 (Nat.min n 5))). intros t Ht.
    generalize 1000%nat. intros c. nia.
  - intros Hn.
    assert (H5 : WS.reconnectAttempts (WS.closes n sv).1 = 5%nat) by lia.
    rewrite onclose_returns. cbv zeta.
    set (sv1 := WS.mkService _ _ _ _).
    pose proof (handleReconnect_spec sv1) as Hr.
    destruct (WS.handleReconnect sv1) as [sv2 out2].
    destruct Hr as (_ & _ & _ & Hge).
    destruct Hge as (_ & Hd & Hout); [subst sv1; simpl; lia|].
    simpl. rewrite delays_app, delays_emit, Hd. split; [done|].
    intros h hs Hhs Hh. apply elem_of_app. right. rewrite Hout.
    unfold WS.emit, WS.slot. subst sv1. simpl. rewrite Hhandlers, Hhs.
    apply list_elem_of_fmap. by exists h.
Qed.

(** ** The header of the main screen *)

(** X27. A scroll event that moves by 3 units or less from the last
    recorded offset is ignored: no animation, and the record stays, so
    that slow moves add up.  Any other event records its offset and
    starts exactly one animation: the header hides when the move is
    downwards and ends beyond offset 80, and shows otherwise; at an
    offset of 80 or less the header is never hidden. *)
Theorem header_follows_the_scroll (currentScrollY lastScrollY : Q) :
  let recorded := (MainScreen.handleScroll currentScrollY lastScrollY).1 in
  let animation := (MainScreen.handleScroll currentScrollY lastScrollY).2 in
  ((lastScrollY - 3 <= currentScrollY /\ currentScrollY <= lastScrollY + 3)%Q ->
   recorded = lastScrollY /\ animation = None)
  /\ ((currentScrollY < lastScrollY - 3 \/ lastScrollY + 3 < currentScrollY)%Q ->
      recorded = currentScrollY
      /\ (animation = Some MainScreen.HideHeader \/ animation = Some MainScreen.ShowHeader)
      /\ (animation = Some MainScreen.HideHeader <->
          (lastScrollY < currentScrollY /\ 80 < currentScrollY)%Q))
  /\ ((currentScrollY <= 80)%Q -> animation <> Some MainScreen.HideHeader).
Proof.
  intros recorded animation. subst recorded animation.
  unfold MainScreen.handleScroll, gtb, ltb, leb.
  assert (Hb : forall a b : Q, negb (Qle_bool a b) = true <-> (b < a)%Q).
  { intros a b. rewrite negb_true_iff, <- not_true_iff_false, Qle_bool_iff.
    split; [apply Qnot_le_lt | apply Qlt_not_le]. }
  assert (Hb' : forall a b : Q, negb (Qle_bool a b) = false <-> (a <= b)%Q).
  { intros a b. by rewrite negb_false_iff, Qle_bool_iff. }
  set (diff := (currentScrollY - lastScrollY)%Q).
  assert (Habs : (Qabs diff <= 3 <-> lastScrollY - 3 <= currentScrollY
                                     /\ currentScrollY <= lastScrollY + 3)%Q).
  { rewrite Qabs_Qle_condition. subst diff. split; intros [? ?]; split; lra. }
  destruct (negb (Qle_bool (Qabs diff) 3)) eqn:Hbig.
  - apply Hb in Hbig.
    assert (Hfar : ~ (lastScrollY - 3 <= currentScrollY
                      /\ currentScrollY <= lastScrollY + 3)%Q).
    { intros H. apply Habs in H. lra. }
    assert (Hdiff : ~ (diff == 0)%Q).
    { intros H0. rewrite H0 in Hbig. by compute in Hbig. }
    destruct (negb (Qle_bool diff 0)) eqn:Hdown;
      destruct (negb (Qle_bool currentScrollY 80)) eqn:Hdeep; simpl.
    + apply Hb in Hdown, Hdeep. subst diff.
      split_and!; [intros H; by destruct (Hfar H) | | intros H; lra].
      intros _. split_and!; [done | by left |]. split; [|done]. intros _. split; lra.
    + apply Hb in Hdown. apply Hb' in Hdeep.
      assert (Hshow : Qle_bool currentScrollY 80 = true) by by apply Qle_bool_iff.
      rewrite Hshow, orb_true_r. subst diff.
      split_and!; [intros H; by destruct (Hfar H) | | done].
      intros _. split_and!; [done | by right |]. split; [done|]. intros [_ ?]. lra.
    + apply Hb' in Hdown. apply Hb in Hdeep.
      assert (Hup : negb (Qle_bool 0 diff) = true).
      { apply Hb. destruct (Qlt_le_dec diff 0) as [?|H0]; [done|].
        exfalso. apply Hdiff. lra. }
      rewrite Hup. simpl. subst diff.
      split_and!; [intros H; by destruct (Hfar H) | | done].
      intros _. split_and!; [done | by right |]. split; [done|]. intros [? _].
      apply Hb in Hup. lra.
    + apply Hb' in Hdown. apply Hb' in Hdeep.
      assert (Hshow : Qle_bool currentScrollY 80 = true) by by apply Qle_bool_iff.
      rewrite Hshow, orb_true_r. subst diff.
      split_and!; [intros H; by destruct (Hfar H) | | done].
      intros _. split_and!; [done | by right |]. split; [done|]. intros [_ ?]. lra.
  - apply Hb' in Hbig. apply Habs in Hbig. simpl.
    split_and!; [done | | done]. intros [?|?]; lra.
Qed.

(** ** The further properties at work on the scenarios *)

Lemma buffer_empty_outside_editing_witness :
  uiReachable 390 844 None whiteChip
  /\ showControlBar whiteChip = isEditingText whiteChip
  /\ localTextContent whiteChip = ∅.
Proof.
  assert (Hr : uiReachable 390 844 None whiteChip).
  { apply uiReachable_of_reachable, whiteChip_reachable. }
  split; [exact Hr|].
  destruct (buffer_empty_outside_editing 390 844 None whiteChip Hr) as (H1 & _ & H3).
  split; [exact H1 | exact (proj1 (H3 eq_refl))].
Defined.

Lemma scale_and_font_size_bounds_witness :
  uiReachable 390 844 None whiteChip
  /\ (8 <= currentFontSize whiteChip <= 72)%Q.
Proof.
  assert (Hr : uiReachable 390 844 None whiteChip).
  { apply uiReachable_of_reachable, whiteChip_reachable. }
  split; [exact Hr|].
  exact (proj1 (scale_and_font_size_bounds 390 844 None whiteChip Hr)).
Defined.

Lemma exported_font_size_bounds_witness :
  uiReachable 390 844 None whiteChip
  /\ (2 <= font_size (postData 390 844 None whiteChip) <= 360)%Z.
Proof.
  assert (Hr : uiReachable 390 844 None whiteChip).
  { apply uiReachable_of_reachable, whiteChip_reachable. }
  split; [exact Hr|].
  exact (proj2 (exported_font_size_bounds 390 844 None whiteChip Hr)).
Defined.

Lemma background_fields_never_change_witness :
  uiReachable 390 844 None whiteChip
  /\ map El.backgroundMode (textElements whiteChip) = [white]
  /\ has_text_background (postData 390 844 None whiteChip) = false.
Proof.
  assert (Hr : uiReachable 390 844 None whiteChip).
  { apply uiReachable_of_reachable, whiteChip_reachable. }
  split; [exact Hr|]. split; [by vm_compute|].
  exact (proj1 (proj2 (proj2
           (background_fields_never_change 390 844 None whiteChip Hr)))).
Defined.

(** A move of the default element and an enlargement of the element that
    reads "hi", queued in either order. *)
Lemma updateTextElement_composes_witness :
  "1" <> "1700000000000"
  /\ updateTextElement "1700000000000" (scaleOnly 2)
       (updateTextElement "1" (positionOnly 10 20) committedHi)
     = updateTextElement "1" (positionOnly 10 20)
         (updateTextElement "1700000000000" (scaleOnly 2) committedHi)
  /\ map (fun el => (El.id el, El.x el, El.y el, El.scale el))
       (textElements
          (updateTextElement "1700000000000" (scaleOnly 2)
             (updateTextElement "1" (positionOnly 10 20) committedHi)))
     = [("1", 10, 20, 1); ("1700000000000", 50, 50, 2)]%Q.
Proof.
  assert (Hne : "1" <> "1700000000000") by discriminate.
  split; [exact Hne|]. split; [|by vm_compute].
  exact (proj1 (proj2 (proj2
    (updateTextElement_composes "1" "1700000000000" (positionOnly 10 20) (scaleOnly 2)
       committedHi))) Hne).
Defined.

Lemma typing_is_buffered_witness :
  El.id defaultElement = "1"
  /\ getDisplayText (handleTextInputChange "1" "hi" editingDefault) defaultElement = "hi".
Proof.
  split; [reflexivity|].
  exact (proj1 (proj2 (typing_is_buffered "1" "hi" editingDefault))
           defaultElement eq_refl).
Defined.

Lemma slider_font_size_witness :
  (200 <= Ev.translationY sliderDown)%Q
  /\ (currentFontSize (handleSliderGesture sliderDown editingDefault) == 8)%Q.
Proof.
  assert (Hd : (200 <= Ev.translationY sliderDown)%Q) by (by vm_compute).
  split; [exact Hd|].
  exact (proj1 (proj2 (proj2 (slider_font_size sliderDown editingDefault))) Hd).
Defined.

Lemma cycleBackgroundColor_cycles_witness :
  (3 < 7)%nat
  /\ Nat.iter 7 (fun p => cycleBackgroundColor p.1 p.2) (3%nat, phone)
     = (3%nat, setBackgroundColor (nth 3 backgroundOptions "") phone).
Proof.
  assert (H3 : (3 < 7)%nat) by lia.
  split; [exact H3|].
  exact (proj2 (proj2 (proj2 (cycleBackgroundColor_cycles 3 phone))) H3).
Defined.

Lemma cycleBackgroundMode_period_three_witness :
  getCurrentTextElement phone = Some defaultElement
  /\ getCurrentTextElement
       (cycleBackgroundMode (cycleBackgroundMode (cycleBackgroundMode phone)))
     = Some defaultElement.
Proof.
  split; [reflexivity|].
  exact (proj1 (proj2 (cycleBackgroundMode_period_three phone defaultElement eq_refl))).
Defined.

Lemma pan_needs_a_snapshot_witness :
  dragStart phone !! "1" = None
  /\ handlePanGesture (panBy 30 (-40)) "1" phone = phone.
Proof.
  split; [reflexivity|].
  exact (proj1 (pan_needs_a_snapshot (panBy 30 (-40)) panBegan panEnd "1" phone) eq_refl).
Defined.

Lemma enter_then_leave_keeps_text_witness :
  isEditingText committedHi = false
  /\ findElementAtPosition committedHi 60 60 = Some hiElement
  /\ blank (El.content hiElement) = false
  /\ findById "1700000000000"
       (textElements (handleCanvasTap 390 844 tapAway
                        (handleCanvasTap 390 844 tapOnHi committedHi)))
     = Some (moveIntoView 390 844 hiElement).
Proof.
  assert (Hhit : findElementAtPosition committedHi 60 60 = Some hiElement) by by vm_compute.
  assert (Hfind : findById (El.id hiElement) (textElements committedHi) = Some hiElement)
    by by vm_compute.
  split; [reflexivity|]. split; [exact Hhit|]. split; [reflexivity|].
  destruct (enter_then_leave_keeps_text 390 844 tapOnHi tapAway committedHi hiElement
              eq_refl Hhit Hfind eq_refl) as (_ & _ & _ & _ & _ & _ & H & _).
  exact H.
Defined.

Lemma delete_moves_selection_witness :
  (1 < length (textElements committedHi))%nat
  /\ selectedTextId committedHi = "1700000000000"
  /\ selectedTextId (deleteTextElement "1700000000000" committedHi) = "1".
Proof.
  assert (Hlen : (1 < length (textElements committedHi))%nat) by (vm_compute; lia).
  assert (Hfind : List.find (fun e => negb (bool_decide (El.id e = "1700000000000")))
                    (textElements committedHi) = Some defaultElement) by by vm_compute.
  split; [exact Hlen|]. split; [reflexivity|].
  exact (proj1 (proj1 (proj2 (delete_moves_selection "1700000000000" committedHi Hlen))
                  defaultElement eq_refl Hfind)).
Defined.

Lemma createNewTextElement_appends_witness :
  findById "1700000000002" (textElements phone) = None
  /\ localTextContent phone = ∅
  /\ textElements (handleCanvasTap 390 844 tapAway
                     (createNewTextElement 390 844 "1700000000002" phone))
     = textElements phone.
Proof.
  split; [reflexivity|]. split; [reflexivity|].
  destruct (createNewTextElement_appends 390 844 "1700000000002" "x" tapAway phone
              eq_refl eq_refl) as (_ & _ & _ & _ & _ & _ & H & _).
  exact H.
Defined.

Lemma payload_mirrors_the_store_witness :
  textElements committedHi !! 0%nat = Some defaultElement
  /\ exists r, text_elements (postData 390 844 None committedHi) !! 0%nat = Some r
               /\ Out.content r = "".
Proof.
  assert (H0 : textElements committedHi !! 0%nat = Some defaultElement) by by vm_compute.
  split; [exact H0|].
  destruct (proj1 (proj2 (payload_mirrors_the_store 390 844 None committedHi))
              0%nat defaultElement H0) as (r & Hr & Hc & _).
  exists r. split; [exact Hr|]. rewrite Hc. by vm_compute.
Defined.

Lemma legacy_fields_from_first_element_witness :
  (handlePost 390 844 None committedHi).2
  = [ApiPost (postData 390 844 None committedHi)]
  /\ exists el els,
       textElements committedHi = el :: els
       /\ font_choice (postData 390 844 None committedHi) = El.fontFamily el.
Proof.
  assert (Hsend : (handlePost 390 844 None committedHi).2
                  = [ApiPost (postData 390 844 None committedHi)]) by by vm_compute.
  split; [exact Hsend|].
  destruct (legacy_fields_from_first_element 390 844 None committedHi _ Hsend)
    as (el & els & H1 & _ & H3 & _).
  exists el, els. exact (conj H1 H3).
Defined.

Lemma buildImageCandidates_shape_witness :
  " /private/var/shot.png " <> ""
  /\ buildImageCandidates true (Some " /private/var/shot.png ")
     = ["file:///private/var/shot.png"; "file:///var/shot.png"].
Proof.
  assert (Hne : " /private/var/shot.png " <> "") by done.
  split; [exact Hne|].
  destruct (proj2 (buildImageCandidates_shape true (Some " /private/var/shot.png "))
              " /private/var/shot.png " eq_refl Hne) as (_ & _ & H & _).
  rewrite H. by vm_compute.
Defined.

Lemma buildImageCandidates_stable_witness :
  buildImageCandidates true (Some " /private/var/shot.png ")
  = "file:///private/var/shot.png" :: ["file:///var/shot.png"]
  /\ buildImageCandidates true (Some "file:///private/var/shot.png")
     = "file:///private/var/shot.png" :: ["file:///var/shot.png"].
Proof.
  assert (H : buildImageCandidates true (Some " /private/var/shot.png ")
              = "file:///private/var/shot.png" :: ["file:///var/shot.png"])
    by by vm_compute.
  split; [exact H|].
  exact (buildImageCandidates_stable true _ _ _ H).
Defined.

Lemma repost_reaches_the_payload_witness :
  Post.rendered_image_url postA1 = Some "https://cdn.example/p1.png"
  /\ handleRepost postA1 = NavigateToComposer postA1 "https://cdn.example/p1.png"
  /\ Post.rendered_image_url postB1 = Some ""
  /\ routeRepostData (handleRepost postB1) = None.
Proof.
  assert (Hne : "https://cdn.example/p1.png" <> "") by done.
  split; [reflexivity|].
  split; [exact (proj1 (proj1 (proj2 (repost_reaches_the_payload postA1))
                          "https://cdn.example/p1.png" eq_refl Hne))|].
  split; [reflexivity|].
  exact (proj1 (proj1 (repost_reaches_the_payload postB1) (or_intror eq_refl))).
Defined.

Lemma formatTimeAgo_ranges_witness :
  (3600000 <= 7260000 - 0 < 86400000)%Z
  /\ formatTimeAgo 7260000 (Some 0%Z) = pretty ((7260000 - 0) / 3600000)%Z ++ "h".
Proof.
  assert (Hr : (3600000 <= 7260000 - 0 < 86400000)%Z) by lia.
  split; [exact Hr|].
  exact (proj1 (proj1 (proj2 (proj2 (formatTimeAgo_ranges 7260000 0))) Hr)).
Defined.

Lemma load_more_merges_without_duplicates_witness :
  "abc" <> ""
  /\ Feed.loadedPosts false (Some "abc") [postB1; postA2] [postA1; postB1]
     = [postA1; postB1; postA2].
Proof.
  assert (Hne : "abc" <> "") by done.
  split; [exact Hne|].
  rewrite (proj1 (load_more_merges_without_duplicates "abc"
                    [postB1; postA2] [postA1; postB1] Hne)).
  by vm_compute.
Defined.

Lemma addNewPost_once_witness :
  Post.id postB1 ∈ map Post.id [postA1; postB1]
  /\ Feed.addNewPost postB1 [postA1; postB1] = [postA1; postB1].
Proof.
  assert (Hin : Post.id postB1 ∈ map Post.id [postA1; postB1]).
  { apply list_elem_of_further, list_elem_of_here. }
  split; [exact Hin|].
  exact (proj1 (addNewPost_once postB1 [postA1; postB1]) Hin).
Defined.

Lemma mute_removes_the_author_witness :
  Feed.muteTarget "p1" shownFeed = Some postA1
  /\ Feed.muteRequest "p1" shownFeed = [Feed.MuteUser "ann"]
  /\ postA1 ∉ Feed.posts (Feed.muteDone postA1 shownFeed).1.
Proof.
  split; [reflexivity|].
  destruct (proj2 (mute_removes_the_author "p1" shownFeed) postA1 eq_refl)
    as (_ & _ & Hreq & Hdone).
  split; [exact Hreq|].
  exact (proj2 (proj2 (Hdone shownFeed))).
Defined.

Lemma load_more_is_single_flight_witness :
  Feed.nextUrl shownFeed = Some "https://api.example/feed/?cursor=abc"
  /\ Feed.loadingMore shownFeed = false
  /\ Feed.loadingMore (Feed.handleLoadMore cursorAbc shownFeed).1 = true
  /\ (Feed.handleLoadMore cursorAbc shownFeed).2 = [Feed.FetchFeed false (Some "abc")].
Proof.
  assert (Hne : "https://api.example/feed/?cursor=abc" <> "") by done.
  split; [reflexivity|]. split; [reflexivity|].
  destruct (proj1 (proj2 (load_more_is_single_flight cursorAbc shownFeed))
              "https://api.example/feed/?cursor=abc" eq_refl Hne eq_refl)
    as (H1 & _ & _ & H4 & _).
  split; [exact H1 | exact (H4 eq_refl)].
Defined.

(** A second handler for new posts is called after the first one, and no
    longer once it is taken out; a registration under [toString] throws. *)
Lemma handlers_are_called_in_order_witness :
  WS.inherited "new_post" = false
  /\ WS.emit "new_post" (WS.mkMessage WS.new_post "p1")
       (WS.on "new_post" 9 listening).1
     = [WS.Call 7 (WS.mkMessage WS.new_post "p1");
        WS.Call 9 (WS.mkMessage WS.new_post "p1")]
  /\ (WS.Call 9 (WS.mkMessage WS.new_post "p1")
      ∉ WS.emit "new_post" (WS.mkMessage WS.new_post "p1")
          (WS.off "new_post" 9 (WS.on "new_post" 9 listening).1).1)
  /\ WS.inherited "toString" = true
  /\ WS.eventHandlers listening !! "toString" = None
  /\ WS.on "toString" 9 listening = (listening, [WS.ThrowTypeError]).
Proof.
  split; [reflexivity|].
  split; [exact (proj1 (proj2 (proj2 (proj1
    (handlers_are_called_in_order "new_post" 9 (WS.mkMessage WS.new_post "p1")
       listening) eq_refl))))|].
  split; [exact (proj1 (proj2 (proj2 (proj2 (proj1
    (handlers_are_called_in_order "new_post" 9 (WS.mkMessage WS.new_post "p1")
       (WS.on "new_post" 9 listening).1) eq_refl)))))|].
  split; [reflexivity|]. split; [reflexivity|].
  exact (proj1 (proj1 (proj2 (proj2
    (handlers_are_called_in_order "toString" 9 (WS.mkMessage WS.new_post "p1")
       listening))) eq_refl eq_refl)).
Defined.

Lemma reconnection_backs_off_witness :
  WS.reconnectAttempts listening = 0%nat
  /\ WS.reconnectAttempts (WS.closes 7 listening).1 = Nat.min 7 5.
Proof.
  split; [reflexivity|].
  exact (proj1 (reconnection_backs_off 7 listening eq_refl)).
Defined.

Lemma header_follows_the_scroll_witness :
  (50 + 3 < 100)%Q
  /\ (MainScreen.handleScroll 100 50).1 = 100%Q.
Proof.
  assert (Hfar : (100 < 50 - 3 \/ 50 + 3 < 100)%Q) by (right; by vm_compute).
  split; [by vm_compute|].
  exact (proj1 (proj1 (proj2 (header_follows_the_scroll 100 50)) Hfar)).
Defined.

Lemma leaving_editing_changes_text_and_size_only_witness :
  isEditingText typedHi = true
  /\ hiElement ∈ textElements committedHi
  /\ exists el, el ∈ textElements typedHi /\ El.id hiElement = El.id el
                /\ El.x hiElement = El.x el /\ El.y hiElement = El.y el.
Proof.
  assert (Hin : hiElement ∈ textElements committedHi).
  { vm_compute. apply list_elem_of_further, list_elem_of_here. }
  split; [reflexivity|]. split; [exact Hin|].
  destruct (leaving_editing_changes_text_and_size_only 390 844 tapAway typedHi
              hiElement eq_refl Hin) as (el & H1 & _ & H2 & H3 & H4 & _).
  exists el. exact (conj H1 (conj H2 (conj H3 H4))).
Defined.
